(** * Settlement reconciliation pipeline: fee model, matcher, discrepancy
    calculator, timing detector, status classifier and ghost detector.

    The Python sources ([pipeline/config.py], [pipeline/fees.py],
    [pipeline/reconcile.py]) are embedded function by function.

    - A Python [float] is an IEEE-754 binary64 number: it is modelled by
      Rocq's primitive [float], whose operations are the same
      round-to-nearest-even operations.  A missing value of a pandas float
      column is NaN, so "null" for such a column is [is_nan].
    - An object column that holds identifiers is a [string]; where pandas
      leaves a missing value in it (an empty [settlement_id] cell of the
      settlement file, the settlement columns after a left merge) the
      field is an [option].
    - A timestamp is its count of nanoseconds, a 64-bit integer; a
      missing one ([NaT]) is [None].
    - A function that can raise returns a [result]: its value, or the
      exception it raises.
    - A DataFrame is the list of its rows, in row order. *)

From Stdlib Require Import ZArith Bool List Lia.
From Stdlib Require Import Floats.
From stdpp Require Import gmap strings list.

Set Warnings "-inexact-float".

Local Open Scope string_scope.
Local Open Scope Z_scope.

(** ** Binary64 numbers

    The axioms of [FloatAxioms] relate each primitive operation to its
    specification on [spec_float]: a sign, a positive mantissa and an
    exponent, with value [mantissa * 2 ^ exponent].  The notions below
    describe the results of those specifications. *)

Module Binary64.

(** The first component of [shr_fexp] is the mantissa shifted right by
    the number of excess digits, the second the exponent raised by it. *)
Definition excess (m e : Z) : Z :=
  Z.max 0 (fexp prec emax (Zdigits2 m + e) - e).

(** What [binary_round_aux] returns: the mantissa is shifted to the
    format's precision, rounded to itself or its successor, shifted once
    more if that overflowed the precision, and checked against the
    largest exponent. *)
Definition rounded (s : bool) (m e : Z) : spec_float :=
  match m / 2 ^ excess m e with
  | Z0 => S754_zero s
  | Zpos p =>
      if e + excess m e <=? emax - prec
      then S754_finite s p (e + excess m e)
      else S754_infinity s
  | Zneg _ => S754_nan
  end.

(** [x] is plus infinity or a positive number of at least [2 ^ t] units
    of [2 ^ -1074], normal or not: the digits of its mantissa and its
    exponent add up to more than [t - 1074]. *)
Definition val_at_least (t : Z) (x : spec_float) : Prop :=
  match x with
  | S754_infinity false => True
  | S754_finite false m e => t + 1 <= Zdigits2 (Zpos m) + e + 1074
  | _ => False
  end.

(** The value of a mantissa and exponent, in units of [2 ^ -1074]. *)
Definition val (m e : Z) : Z := m * 2 ^ (e + 1074).

(** The signed value of a zero or of a finite number, in the same
    units. *)
Definition signed_val (x : spec_float) : Z :=
  match x with
  | S754_finite s m e => cond_Zopp s (val (Zpos m) e)
  | _ => 0
  end.

(** [x] is a zero or a finite number of the format. *)
Definition finite_valid (x : spec_float) : Prop :=
  match x with
  | S754_zero _ => True
  | S754_finite _ m e => canonical_mantissa prec emax m e = true
  | _ => False
  end.

(** [x] is an infinity or a finite number other than zero, of sign
    [s]. *)
Definition nonzero_of_sign (s : bool) (x : spec_float) : Prop :=
  x = S754_infinity s \/ exists p e, x = S754_finite s p e.

End Binary64.

(** ** Configuration ([pipeline/config.py]) *)

Module Config.

(** The class attributes that [os.getenv] may override. *)
Record t : Type := mk {
  CARD_FEE_PERCENT : float;
  CARD_FEE_FIXED : float;
  BANK_FEE_PERCENT : float;
  VOUCHER_FEE_PERCENT : float
}.

(** The values taken when the environment sets none of them. *)
Definition defaults : t :=
  {| CARD_FEE_PERCENT := 2.9%float;
     CARD_FEE_FIXED := 0.30%float;
     BANK_FEE_PERCENT := 1.5%float;
     VOUCHER_FEE_PERCENT := 3.5%float |}.

Definition CARD_SETTLEMENT_MIN : Z := 2.
Definition CARD_SETTLEMENT_MAX : Z := 3.
Definition CARD_SETTLEMENT_THRESHOLD : Z := 5.
Definition BANK_SETTLEMENT_MIN : Z := 5.
Definition BANK_SETTLEMENT_MAX : Z := 7.
Definition BANK_SETTLEMENT_THRESHOLD : Z := 10.
Definition VOUCHER_SETTLEMENT_MIN : Z := 3.
Definition VOUCHER_SETTLEMENT_MAX : Z := 5.
Definition VOUCHER_SETTLEMENT_THRESHOLD : Z := 8.

(** The dictionary built by [get_settlement_timing]. *)
Definition timing : gmap string (Z * Z * Z) :=
  <["credit_card" := (CARD_SETTLEMENT_MIN, CARD_SETTLEMENT_MAX, CARD_SETTLEMENT_THRESHOLD)]>
  (<["debit_card" := (CARD_SETTLEMENT_MIN, CARD_SETTLEMENT_MAX, CARD_SETTLEMENT_THRESHOLD)]>
  (<["bank_transfer" := (BANK_SETTLEMENT_MIN, BANK_SETTLEMENT_MAX, BANK_SETTLEMENT_THRESHOLD)]>
  (<["cash_voucher" := (VOUCHER_SETTLEMENT_MIN, VOUCHER_SETTLEMENT_MAX,
                         VOUCHER_SETTLEMENT_THRESHOLD)]>
    ∅))).

(** [timing.get(payment_method, (2, 5, 7))] *)
Definition get_settlement_timing (payment_method : string) : Z * Z * Z :=
  default (2, 5, 7) (timing !! payment_method).

End Config.

(** ** Fee model ([pipeline/fees.py]) *)

Module Fees.
Import Config.

Section WithConfig.
Variable cfg : Config.t.

Definition calculate_card_fee (amount : float) : float :=
  (amount * CARD_FEE_PERCENT cfg / 100 + CARD_FEE_FIXED cfg)%float.

Definition calculate_bank_fee (amount : float) : float :=
  (amount * BANK_FEE_PERCENT cfg / 100)%float.

Definition calculate_voucher_fee (amount : float) : float :=
  (amount * VOUCHER_FEE_PERCENT cfg / 100)%float.

Definition calculate_fee (amount : float) (payment_method : string) : float :=
  if String.eqb payment_method "credit_card" || String.eqb payment_method "debit_card"
  then calculate_card_fee amount
  else if String.eqb payment_method "bank_transfer"
  then calculate_bank_fee amount
  else if String.eqb payment_method "cash_voucher"
  then calculate_voucher_fee amount
  else calculate_card_fee amount.

Definition calculate_expected_settlement (amount : float) (payment_method : string) : float :=
  let fee := calculate_fee amount payment_method in
  (amount - fee)%float.

End WithConfig.

End Fees.

(** ** Currency conversion ([Config.get_exchange_rate], [fees.convert_to_usd]) *)

Module Rates.

(** The exchange-rate attributes of the [Config] class, which [os.getenv]
    may override. *)
Record t : Type := mk {
  BRL_TO_USD : float;
  MXN_TO_USD : float;
  COP_TO_USD : float;
  CLP_TO_USD : float
}.

Definition defaults : t :=
  {| BRL_TO_USD := 0.20%float;
     MXN_TO_USD := 0.055%float;
     COP_TO_USD := 0.00025%float;
     CLP_TO_USD := 0.0011%float |}.

Section WithRates.
Variable cfg : t.

(** The dictionary built by [get_exchange_rate]. *)
Definition rates : gmap string float :=
  <["BRL" := BRL_TO_USD cfg]>
  (<["MXN" := MXN_TO_USD cfg]>
  (<["COP" := COP_TO_USD cfg]>
  (<["CLP" := CLP_TO_USD cfg]>
  (<["USD" := 1.0%float]> ∅)))).

(** [rates.get(currency, 1.0)] *)
Definition get_exchange_rate (currency : string) : float :=
  default 1.0%float (rates !! currency).

Definition convert_to_usd (amount : float) (currency : string) : float :=
  let rate := get_exchange_rate currency in
  (amount * rate)%float.

End WithRates.

End Rates.

(** ** Exceptions

    The engine raises where pandas does: reading a column that a frame
    does not have, subtracting two timestamps whose difference leaves
    the 64-bit nanosecond range, and adding a [timedelta] that carries a
    [Timestamp] past [Timestamp.max].  A function that can raise
    returns a [result]. *)

Module Errors.

Inductive exception : Type :=
| KeyError
| OverflowError
| OutOfBoundsDatetime.

Inductive result (A : Type) : Type :=
| Ok (a : A)
| Raise (e : exception).

Arguments Ok {A} a.
Arguments Raise {A} e.

Definition bind {A B : Type} (m : result A) (f : A -> result B) : result B :=
  match m with
  | Ok a => f a
  | Raise e => Raise e
  end.

Declare Scope result_scope.
Delimit Scope result_scope with result.
Bind Scope result_scope with result.

Notation "x <- m ;; k" := (bind m (fun x => k))
  (at level 100, m at next level, k at level 200, right associativity)
  : result_scope.

Local Open Scope result_scope.

(** A function applied to the rows in order; the first exception is the
    one raised. *)
Fixpoint traverse {A B : Type} (f : A -> result B) (l : list A)
  : result (list B) :=
  match l with
  | [] => Ok []
  | a :: l =>
      b <- f a ;;
      bs <- traverse f l ;;
      Ok (b :: bs)
  end.

End Errors.

(** ** Reconciliation engine ([pipeline/reconcile.py]) *)

Module Reconcile.
Import Config Fees Errors.
Local Open Scope result_scope.

(** *** Records

    The two frames are what [load_data] hands over.  A column that the
    engine tests with [notna] or [isna] ([settlement_id],
    [settlement_date], [settled_amount]) may hold a missing value: an
    [option], or NaN for a float.  A column that the engine only compares
    for equality ([transaction_id], [status], [payment_method]) is a
    [string]: a missing value there behaves as one more value of the
    column, equal to itself in the merge and to none of the listed
    names.  The transaction [timestamp] is present.

    Timestamps are [datetime64[ns]] values: an integer number of
    nanoseconds since the epoch, within the 64-bit range; NaT is
    [None]. *)

Record Transaction : Type := {
  transaction_id : string;
  timestamp : Z;
  amount : float;
  currency : string;
  status : string;
  payment_method : string;
  provider : string;
  country : string;
  customer_id : string
}.

Record Settlement : Type := {
  s_settlement_id : option string;
  s_transaction_id : string;
  s_settlement_date : option Z;
  s_settled_amount : float;
  s_currency : string;
  s_provider : string
}.

(** The frame gains columns stage by stage; each stage is a record over
    the previous one, so a column can be read only once it exists. *)

(** after [calculate_expected_amounts] *)
Record Expected : Type := {
  e_txn :> Transaction;
  expected_settled_amount : float
}.

(** after [match_settlements_exact] *)
Record Matched : Type := {
  m_row :> Expected;
  settlement_id : option string;
  settlement_date : option Z;
  settled_amount : float
}.

(** after [calculate_discrepancies] *)
Record Discrepancy : Type := {
  d_row :> Matched;
  actual_settled_amount : float;
  discrepancy_amount : float;
  discrepancy_percent : float
}.

(** after [detect_timing_anomalies]; [days_to_settle] is a float column
    holding whole days or NaN: an optional integer. *)
Record Timed : Type := {
  t_row :> Discrepancy;
  days_to_settle : option Z;
  settlement_threshold : Z;
  timing_anomaly : bool
}.

(** after [classify_settlement_status] *)
Record Classified : Type := {
  c_row :> Timed;
  settlement_status : string
}.

(** the rows [reconcile_transactions] returns *)
Record ReconciledRecord : Type := {
  r_row :> Classified;
  expected_settlement_date : Z
}.

Record GhostSettlement : Type := {
  g_settlement :> Settlement;
  anomaly_type : string
}.

(** *** Nanosecond arithmetic

    [NaT] is stored as the smallest 64-bit integer. *)
Definition int64_min : Z := - 2 ^ 63.
Definition int64_max : Z := 2 ^ 63 - 1.
Definition ns_per_day : Z := 86400 * 1000000000.

(** The difference of two timestamps that are not [NaT]: the checked
    64-bit subtraction of pandas raises when the difference leaves the
    range, and the difference that is the stored value of [NaT] reads
    back as [NaT]. *)
Definition sub_datetime (date ts : Z) : result (option Z) :=
  let delta := date - ts in
  if (delta <? int64_min) || (int64_max <? delta) then Raise OverflowError
  else if delta =? int64_min then Ok None
  else Ok (Some delta).

Section WithConfig.
Variable cfg : Config.t.

(** *** [calculate_expected_amounts] *)
Definition calculate_expected_amounts (transactions_df : list Transaction)
  : list Expected :=
  map (fun row =>
         {| e_txn := row;
            expected_settled_amount :=
              calculate_expected_settlement cfg (amount row) (payment_method row) |})
      transactions_df.

(** *** [match_settlements_exact]

    [merge(how='left', on='transaction_id')]: the left rows in order;
    a left row with no right row of the same key is kept once with the
    right columns missing, otherwise it is repeated once per right row
    of that key, in the right frame's order, with the right row's
    columns as they are (a missing [settlement_id] stays missing).  The
    right frame's [provider] and [currency] get the suffix and are
    dropped. *)
Definition references (tid : string) (s : Settlement) : bool :=
  String.eqb (s_transaction_id s) tid.

Definition attach (t : Expected) (s : Settlement) : Matched :=
  {| m_row := t;
     settlement_id := s_settlement_id s;
     settlement_date := s_settlement_date s;
     settled_amount := s_settled_amount s |}.

Definition unmatched (t : Expected) : Matched :=
  {| m_row := t;
     settlement_id := None;
     settlement_date := None;
     settled_amount := nan |}.

Definition merge_row (settlements_df : list Settlement) (t : Expected)
  : list Matched :=
  match List.filter (references (transaction_id t)) settlements_df with
  | [] => [unmatched t]
  | ss => map (attach t) ss
  end.

Definition match_settlements_exact
    (transactions_df : list Expected) (settlements_df : list Settlement)
  : list Matched :=
  flat_map (merge_row settlements_df) transactions_df.

(** *** [calculate_discrepancies] *)
Definition discrepancy_row (row : Matched) : Discrepancy :=
  let actual := settled_amount row in
  let da := if is_nan actual then nan
            else (expected_settled_amount row - actual)%float in
  let dp := if is_nan actual then nan
            else (da / expected_settled_amount row * 100)%float in
  {| d_row := row;
     actual_settled_amount := actual;
     discrepancy_amount := da;
     discrepancy_percent := dp |}.

Definition calculate_discrepancies (reconciled_df : list Matched)
  : list Discrepancy :=
  match reconciled_df with
  | [] => []
  | _ => map discrepancy_row reconciled_df
  end.

(** *** [detect_timing_anomalies]

    [(settlement_date - timestamp).dt.days] is the floor of the
    difference in days; a row without a settlement date is masked in
    the subtraction. *)
Definition get_threshold (payment_method : string) : Z :=
  let '(_, _, threshold) := get_settlement_timing payment_method in
  threshold.

Definition timing_row (row : Discrepancy) : result Timed :=
  days <- match settlement_date row with
          | Some date =>
              delta <- sub_datetime date (timestamp row) ;;
              Ok (option_map (fun ns => ns / ns_per_day) delta)
          | None => Ok None
          end ;;
  let threshold := get_threshold (payment_method row) in
  Ok {| t_row := row;
        days_to_settle := days;
        settlement_threshold := threshold;
        timing_anomaly :=
          match days with
          | Some d => threshold <? d
          | None => false
          end |}.

Definition detect_timing_anomalies (reconciled_df : list Discrepancy)
  : result (list Timed) :=
  match reconciled_df with
  | [] => Ok []
  | _ => traverse timing_row reconciled_df
  end.

(** *** [classify_settlement_status] *)
Definition discrepancy_threshold_percent : float := 1.0%float.
Definition discrepancy_threshold_amount : float := 1.0%float.

Definition classify_status (row : Timed) : string :=
  if String.eqb (status row) "authorized" || String.eqb (status row) "declined"
  then "not_applicable"
  else
    match settlement_id row with
    | None =>
        if String.eqb (status row) "captured" then "missing"
        else if String.eqb (status row) "refunded"
                || String.eqb (status row) "chargedback"
        then "missing_expected"
        else "not_applicable"
    | Some _ =>
        if negb (is_nan (discrepancy_amount row))
           && ((discrepancy_threshold_amount <? abs (discrepancy_amount row))%float
               && (discrepancy_threshold_percent <? abs (discrepancy_percent row))%float)
        then "discrepancy"
        else "matched"
    end.

Definition classify_settlement_status (reconciled_df : list Timed)
  : list Classified :=
  map (fun row => {| c_row := row; settlement_status := classify_status row |})
      reconciled_df.

(** *** [identify_ghost_settlements]

    The two Python sets hold the values of the [settlement_id] columns:
    the first only the values that are not missing, the second the
    missing value too when the settlement frame has one, and [isin]
    finds a missing value in a set that holds it. *)
Definition notna {A : Type} (x : option A) : bool :=
  match x with Some _ => true | None => false end.

Definition matched_settlement_ids (reconciled_df : list Classified)
  : gset (option string) :=
  list_to_set
    (List.filter notna
       (map (fun row : Classified => settlement_id row) reconciled_df)).

Definition all_settlement_ids (settlements_df : list Settlement)
  : gset (option string) :=
  list_to_set (map s_settlement_id settlements_df).

Definition identify_ghost_settlements
    (reconciled_df : list Classified) (settlements_df : list Settlement)
  : list GhostSettlement :=
  let ghost_settlement_ids :=
    all_settlement_ids settlements_df ∖ matched_settlement_ids reconciled_df in
  map (fun s => {| g_settlement := s; anomaly_type := "ghost_settlement" |})
      (List.filter (fun s => bool_decide (s_settlement_id s ∈ ghost_settlement_ids))
                   settlements_df).

(** *** [calculate_expected_settlement_date]

    [timedelta(days=(min_days + max_days) / 2)]: half days are whole
    nanoseconds.  Adding it to the [Timestamp] raises when the sum is
    past [Timestamp.max]. *)
Definition calculate_expected_settlement_date (row : Classified) : result Z :=
  let '(min_days, max_days, _) := get_settlement_timing (payment_method row) in
  let expected_date := timestamp row + (min_days + max_days) * (ns_per_day / 2) in
  if int64_max <? expected_date then Raise OutOfBoundsDatetime
  else Ok expected_date.

(** *** The statistics [reconcile_transactions] prints between the steps

    Each reads a column of the frame.  [calculate_discrepancies] hands an
    empty frame back as it is, without the columns it adds, so reading
    [discrepancy_amount] from it raises [KeyError]. *)
Definition matched_count (reconciled_df : list Matched) : nat :=
  length (List.filter (fun row : Matched => notna (settlement_id row)) reconciled_df).

Definition discrepancy_count (reconciled_df : list Discrepancy) : result nat :=
  match reconciled_df with
  | [] => Raise KeyError
  | _ =>
      Ok (length
            (List.filter
               (fun row : Discrepancy =>
                  negb (is_nan (discrepancy_amount row))
                  && (1.0 <? abs (discrepancy_amount row))%float)
               reconciled_df))
  end.

Definition timing_anomaly_count (reconciled_df : list Timed) : nat :=
  length (List.filter timing_anomaly reconciled_df).

(** *** [reconcile_transactions], from the two loaded frames

    The printed text is not modelled; the column reads are. *)
Definition reconcile_transactions
    (transactions_df : list Transaction) (settlements_df : list Settlement)
  : result (list ReconciledRecord * list GhostSettlement) :=
  let transactions_df := calculate_expected_amounts transactions_df in
  let reconciled_df := match_settlements_exact transactions_df settlements_df in
  let matched_count := matched_count reconciled_df in
  let reconciled_df := calculate_discrepancies reconciled_df in
  discrepancy_count <- discrepancy_count reconciled_df ;;
  reconciled_df <- detect_timing_anomalies reconciled_df ;;
  let timing_anomaly_count := timing_anomaly_count reconciled_df in
  let reconciled_df := classify_settlement_status reconciled_df in
  let ghost_settlements := identify_ghost_settlements reconciled_df settlements_df in
  reconciled_df <-
    traverse (fun row =>
                expected_date <- calculate_expected_settlement_date row ;;
                Ok {| r_row := row; expected_settlement_date := expected_date |})
             reconciled_df ;;
  Ok (reconciled_df, ghost_settlements).

End WithConfig.

End Reconcile.

(** ** Vocabulary of the properties

    The status policy and the SLA thresholds as the specification words
    them, and the sets and hypotheses the statements below speak of. *)

Module Spec.
Import Errors Reconcile.

(** An ordered decision table: the first rule whose guard holds gives the
    outcome, [otherwise] is the outcome when none does. *)
Fixpoint first_match {A : Type} (rules : list ((A -> bool) * string))
    (otherwise : string) (x : A) : string :=
  match rules with
  | [] => otherwise
  | (guard, outcome) :: rest =>
      if guard x then outcome else first_match rest otherwise x
  end.

Definition lifecycle_in (names : list string) (row : Timed) : bool :=
  existsb (String.eqb (status row)) names.

Definition no_settlement_attached (row : Timed) : bool :=
  match settlement_id row with None => true | Some _ => false end.

Definition exceeds_both_tolerances (row : Timed) : bool :=
  (1.0 <? abs (discrepancy_amount row))%float
  && (1.0 <? abs (discrepancy_percent row))%float.

(** Rules 1 to 3 of the status classifier, top to bottom; rule 4 is the
    outcome [matched] of every remaining case. *)
Definition status_rules : list ((Timed -> bool) * string) :=
  [ (lifecycle_in ["authorized"; "declined"], "not_applicable");
    (fun row => no_settlement_attached row && lifecycle_in ["captured"] row,
     "missing");
    (fun row => no_settlement_attached row
                && lifecycle_in ["refunded"; "chargedback"] row,
     "missing_expected");
    (no_settlement_attached, "not_applicable");
    (exceeds_both_tolerances, "discrepancy") ].

Definition decision_table : Timed -> string :=
  first_match status_rules "matched".

(** The SLA threshold per payment method, as tabulated. *)
Definition threshold_days (payment_method : string) : Z :=
  if String.eqb payment_method "credit_card" then 5
  else if String.eqb payment_method "debit_card" then 5
  else if String.eqb payment_method "bank_transfer" then 10
  else if String.eqb payment_method "cash_voucher" then 8
  else 7.

(** "At most one settlement references any given transaction identifier." *)
Definition at_most_one_settlement_per_transaction
    (settlements_df : list Settlement) : Prop :=
  forall tid : string,
    (length (List.filter (references tid) settlements_df) <= 1)%nat.

(** The settlement identifiers of the records of the output, those of the
    settlements reported as ghosts, and those of the settlement frame:
    the identifiers that are present. *)
Definition attached_settlement_ids (reconciled_df : list ReconciledRecord)
  : gset string :=
  list_to_set (omap (fun r : ReconciledRecord => settlement_id r) reconciled_df).

Definition ghost_settlement_ids (ghost_settlements : list GhostSettlement)
  : gset string :=
  list_to_set (omap (fun g : GhostSettlement => s_settlement_id g) ghost_settlements).

Definition settlement_ids (settlements_df : list Settlement) : gset string :=
  list_to_set (omap s_settlement_id settlements_df).

(** The whole days from the timestamp to the settlement date, as
    [detect_timing_anomalies] reads them when the subtraction stays in
    range. *)
Definition whole_days (date ts : Z) : option Z :=
  if date - ts =? int64_min then None else Some ((date - ts) / ns_per_day).

(** The expected settlement date on unbounded integers. *)
Definition midpoint_date (payment_method : string) (ts : Z) : Z :=
  let '(min_days, max_days, _) := Config.get_settlement_timing payment_method in
  ts + (min_days + max_days) * (ns_per_day / 2).

(** The row [detect_timing_anomalies] returns for a row it does not
    raise on. *)
Definition timed (row : Discrepancy) : Timed :=
  let days :=
    match settlement_date row with
    | Some date => whole_days date (timestamp row)
    | None => None
    end in
  {| t_row := row;
     days_to_settle := days;
     settlement_threshold := get_threshold (payment_method row);
     timing_anomaly :=
       match days with
       | Some d => get_threshold (payment_method row) <? d
       | None => false
       end |}.

(** One record of the output, from the row the matcher produced, when
    nothing raises. *)
Definition reconcile_row (row : Matched) : ReconciledRecord :=
  let timed := timed (discrepancy_row row) in
  let classified := {| c_row := timed; settlement_status := classify_status timed |} in
  {| r_row := classified;
     expected_settlement_date :=
       midpoint_date (payment_method row) (timestamp row) |}.

(** The difference between a settlement date and a timestamp is a 64-bit
    integer; the expected settlement date of a transaction is not past
    the largest timestamp. *)
Definition span_fits (date : option Z) (ts : Z) : bool :=
  match date with
  | Some date => (int64_min <=? date - ts) && (date - ts <=? int64_max)
  | None => true
  end.

Definition expected_date_fits (t : Transaction) : bool :=
  midpoint_date (payment_method t) (timestamp t) <=? int64_max.

(** Every settlement date of the batch is within range of the timestamp
    of the transaction it references; every expected settlement date of
    the batch is within range. *)
Definition spans_fit (transactions_df : list Transaction)
    (settlements_df : list Settlement) : bool :=
  forallb (fun t : Transaction =>
             forallb (fun s => negb (references (transaction_id t) s)
                               || span_fits (s_settlement_date s) (timestamp t))
                     settlements_df)
          transactions_df.

Definition expected_dates_fit (transactions_df : list Transaction) : bool :=
  forallb expected_date_fits transactions_df.

(** A batch on which [reconcile_transactions] returns: the transaction
    frame is not empty and the dates are in range. *)
Definition batch_ok (transactions_df : list Transaction)
    (settlements_df : list Settlement) : bool :=
  match transactions_df with
  | [] => false
  | _ => spans_fit transactions_df settlements_df
         && expected_dates_fit transactions_df
  end.

(** The supported payment methods. *)
Definition supported_methods : list string :=
  ["credit_card"; "debit_card"; "bank_transfer"; "cash_voucher"].

End Spec.

(** ** Further vocabulary: outcomes, joins and signs *)

Module Notions.
Import Errors Reconcile.

(** The five outcomes of the status classifier. *)
Definition settlement_statuses : list string :=
  ["matched"; "missing"; "missing_expected"; "discrepancy"; "not_applicable"].

(** Some transaction of the frame has the identifier the settlement
    references. *)
Definition has_transaction (transactions_df : list Transaction) (s : Settlement)
  : bool :=
  existsb (fun t => String.eqb (transaction_id t) (s_transaction_id s))
          transactions_df.

(** The record carries a settlement identifier. *)
Definition has_settlement (r : ReconciledRecord) : bool :=
  match settlement_id r with Some _ => true | None => false end.

(** The rows a left row contributes to the join: one, or one per
    settlement that references it. *)
Definition fan_out (settlements_df : list Settlement) (t : Expected) : nat :=
  Nat.max 1 (length (List.filter (references (transaction_id t)) settlements_df)).

(** A ghost record of a settlement. *)
Definition ghost_of (s : Settlement) : GhostSettlement :=
  {| g_settlement := s; anomaly_type := "ghost_settlement" |}.

(** The settlement is reported as a ghost of the batch: it has no
    identifier, or no transaction has the identifier it references. *)
Definition is_orphan (transactions_df : list Transaction) (s : Settlement) : bool :=
  negb (notna (s_settlement_id s)) || negb (has_transaction transactions_df s).

(** A zero, plus infinity or a positive number. *)
Definition sf_nonneg (x : spec_float) : Prop :=
  match x with
  | S754_zero _ | S754_infinity false | S754_finite false _ _ => True
  | _ => False
  end.

(** A parameter that is finite and above zero, or finite and not below
    zero. *)
Definition positive_finite (x : float) : bool :=
  is_finite x && (0 <? x)%float.

Definition nonneg_finite (x : float) : bool :=
  is_finite x && (0 <=? x)%float.

(** A fee schedule of positive percentages and a fixed card fee that is
    not negative. *)
Definition fee_schedule_ok (cfg : Config.t) : bool :=
  positive_finite (Config.CARD_FEE_PERCENT cfg)
  && nonneg_finite (Config.CARD_FEE_FIXED cfg)
  && positive_finite (Config.BANK_FEE_PERCENT cfg)
  && positive_finite (Config.VOUCHER_FEE_PERCENT cfg).

(** The smallest amounts whose fee does not round to zero at the default
    rates: 34 and 15 units of [2 ^ -1074]. *)
Definition smallest_bank_amount : float := 0x22p-1074%float.
Definition smallest_voucher_amount : float := 0xfp-1074%float.

(** The 255 smallest positive binary64 numbers, [k * 2 ^ -1074] for [k]
    from 1 to 255, and what is checked of each: the expected settlement
    of a bank transfer, and of a cash voucher, is below the amount
    exactly from the smallest amount on. *)
Definition tiny_amounts : list float :=
  map (fun k => SF2Prim (S754_finite false (Pos.of_nat k) (-1074))) (seq 1 255).

Definition below_from_smallest (amount : float) : bool :=
  Bool.eqb (Fees.calculate_expected_settlement Config.defaults amount "bank_transfer"
            <? amount)%float
           (smallest_bank_amount <=? amount)%float
  && Bool.eqb (Fees.calculate_expected_settlement Config.defaults amount "cash_voucher"
               <? amount)%float
              (smallest_voucher_amount <=? amount)%float.

End Notions.

(** ** Concrete batches *)

Module Samples.
Import Reconcile.

Definition txn_001 : Transaction :=
  {| transaction_id := "TXN_001"; timestamp := 0; amount := 100;
     currency := "BRL"; status := "captured"; payment_method := "credit_card";
     provider := "PayBridge"; country := "BR"; customer_id := "CUST_1" |}.

Definition txn_002 : Transaction :=
  {| transaction_id := "TXN_002"; timestamp := 0; amount := 200;
     currency := "BRL"; status := "captured"; payment_method := "bank_transfer";
     provider := "LatamPay"; country := "BR"; customer_id := "CUST_2" |}.

Definition set_001 : Settlement :=
  {| s_settlement_id := Some "SET_001"; s_transaction_id := "TXN_001";
     s_settlement_date := Some (2 * ns_per_day); s_settled_amount := 96.80;
     s_currency := "BRL"; s_provider := "PayBridge" |}.

Definition with_expected (t : Transaction) : Expected :=
  {| e_txn := t;
     expected_settled_amount :=
       Fees.calculate_expected_settlement Config.defaults
         (amount t) (payment_method t) |}.

(** A zero-amount bank transfer (its expected settlement is 0.0) and a
    settlement of 5.00 that references it. *)
Definition txn_zero : Transaction :=
  {| transaction_id := "TXN_010"; timestamp := 0; amount := 0;
     currency := "MXN"; status := "captured"; payment_method := "bank_transfer";
     provider := "LatamPay"; country := "MX"; customer_id := "CUST_3" |}.

Definition set_five : Settlement :=
  {| s_settlement_id := Some "SET_010"; s_transaction_id := "TXN_010";
     s_settlement_date := Some (6 * ns_per_day); s_settled_amount := 5;
     s_currency := "MXN"; s_provider := "LatamPay" |}.


(** A settlement for [txn_001] whose settled amount is missing. *)
Definition set_no_amount : Settlement :=
  {| s_settlement_id := Some "SET_020"; s_transaction_id := "TXN_001";
     s_settlement_date := Some (2 * ns_per_day); s_settled_amount := nan;
     s_currency := "BRL"; s_provider := "PayBridge" |}.

(** A settlement of 90.00 for [txn_001] whose identifier is missing, dated
    nine days after the transaction. *)
Definition set_no_id : Settlement :=
  {| s_settlement_id := None; s_transaction_id := "TXN_001";
     s_settlement_date := Some (9 * ns_per_day); s_settled_amount := 90;
     s_currency := "BRL"; s_provider := "PayBridge" |}.

(** A settlement for a transaction that is not in the batch. *)
Definition set_stray : Settlement :=
  {| s_settlement_id := Some "SET_999"; s_transaction_id := "TXN_999";
     s_settlement_date := Some (3 * ns_per_day); s_settled_amount := 100;
     s_currency := "BRL"; s_provider := "PayBridge" |}.

(** A transaction stamped one day before the largest timestamp, and a
    settlement of [txn_001] dated at the smallest one. *)
Definition txn_late : Transaction :=
  {| transaction_id := "TXN_030"; timestamp := int64_max - ns_per_day;
     amount := 100; currency := "BRL"; status := "captured";
     payment_method := "credit_card"; provider := "PayBridge";
     country := "BR"; customer_id := "CUST_4" |}.

Definition set_far : Settlement :=
  {| s_settlement_id := Some "SET_031"; s_transaction_id := "TXN_030";
     s_settlement_date := Some (- int64_max); s_settled_amount := 96.80;
     s_currency := "BRL"; s_provider := "PayBridge" |}.

End Samples.

(** * Properties *)

Import Binary64 Config Fees Rates Errors Reconcile Spec Notions Samples.
Local Open Scope result_scope.

(** ** Facts about binary64 used below *)

Lemma is_nan_Prim2SF (x : float) : is_nan x = true -> Prim2SF x = S754_nan.
Proof. intros H. unfold Prim2SF. now rewrite H. Qed.

Lemma SFcompare_nan_r (f : spec_float) : SFcompare f S754_nan = None.
Proof. now destruct f. Qed.

Lemma ltb_abs_nan (y x : float) : is_nan x = true -> (y <? abs x)%float = false.
Proof.
  intros H. rewrite ltb_spec, abs_spec, (is_nan_Prim2SF x H).
  unfold SFltb. cbn [SFabs]. now rewrite SFcompare_nan_r.
Qed.

Lemma is_nan_SFeqb (x : float) :
  is_nan x = negb (SFeqb (Prim2SF x) (Prim2SF x)).
Proof. unfold is_nan. now rewrite FloatAxioms.eqb_spec. Qed.

Lemma Prim2SF_not_nan (x : float) :
  is_nan x = false -> Prim2SF x <> S754_nan.
Proof. intros H E. rewrite is_nan_SFeqb, E in H. discriminate. Qed.


Lemma Prim2SF_nan_eq (x : float) : Prim2SF x = S754_nan -> x = nan.
Proof. intros H. apply Prim2SF_inj. now rewrite H. Qed.

Lemma Prim2SF_infinity_eq (x : float) (s : bool) :
  Prim2SF x = S754_infinity s -> x = if s then neg_infinity else infinity.
Proof. intros H. apply Prim2SF_inj. rewrite H. now destruct s. Qed.

(** [x == 0.0] holds exactly for the two zeros. *)
Lemma is_zero_Prim2SF (x : float) :
  is_zero x = true <-> exists s, Prim2SF x = S754_zero s.
Proof.
  unfold is_zero. rewrite FloatAxioms.eqb_spec.
  change (Prim2SF zero) with (S754_zero false). split.
  - destruct (Prim2SF x) as [s|s| |s m e]; cbn; try discriminate; eauto;
      destruct s; discriminate.
  - intros [s ->]. reflexivity.
Qed.

(** A finite value is a zero or a signed mantissa and exponent. *)
Lemma is_finite_Prim2SF (x : float) :
  is_finite x = true ->
  (exists s, Prim2SF x = S754_zero s) \/ (exists s m e, Prim2SF x = S754_finite s m e).
Proof.
  unfold is_finite. intros H. apply negb_true_iff, orb_false_iff in H as [Hn Hi].
  unfold Prim2SF. rewrite Hn, Hi.
  destruct (is_zero x); [eauto|].
  destruct (Z.frexp x) as [r ex].
  destruct (shr_fexp _ _ _ _ _) as [sh e'].
  destruct (shr_m sh); eauto.
Qed.

(** *** Rounding to the format

    [binary_round_aux] is read off as [rounded]; from that reading come a
    lower bound on products, quotients and sums of positive normal
    numbers, and the fact that a difference rounds below the minuend. *)

(** A mantissa of [d] binary digits lies between [2 ^ (d - 1)] and
    [2 ^ d]. *)
Lemma digits2_pos_bounds (p : positive) :
  2 ^ (Zpos (digits2_pos p) - 1) <= Zpos p < 2 ^ Zpos (digits2_pos p).
Proof.
  induction p as [p IH|p IH|]; cbn [digits2_pos].
  - rewrite Pos2Z.inj_succ.
    replace (Z.succ (Zpos (digits2_pos p)) - 1) with (Z.succ (Zpos (digits2_pos p) - 1)) by lia.
    rewrite !Z.pow_succ_r by lia. lia.
  - rewrite Pos2Z.inj_succ.
    replace (Z.succ (Zpos (digits2_pos p)) - 1) with (Z.succ (Zpos (digits2_pos p) - 1)) by lia.
    rewrite !Z.pow_succ_r by lia. lia.
  - cbn. lia.
Qed.

Lemma Zdigits2_bounds (m : Z) :
  0 < m -> 2 ^ (Zdigits2 m - 1) <= m < 2 ^ Zdigits2 m.
Proof.
  destruct m as [|p|p]; try lia. intros _. apply digits2_pos_bounds.
Qed.

Lemma Zdigits2_pos (m : Z) : 0 < m -> 0 < Zdigits2 m.
Proof. destruct m; cbn; lia. Qed.

(** The number of digits is determined by the binade. *)
Lemma Zdigits2_unique (m d : Z) :
  2 ^ (d - 1) <= m < 2 ^ d -> 0 < d -> Zdigits2 m = d.
Proof.
  intros [Hlo Hhi] Hd.
  assert (Hm : 0 < m) by (pose proof (Z.pow_pos_nonneg 2 (d - 1)); lia).
  pose proof (Zdigits2_bounds m Hm) as [Hlo' Hhi'].
  pose proof (Zdigits2_pos m Hm) as Hpos.
  destruct (Z.lt_trichotomy (Zdigits2 m) d) as [Hlt | [Heq | Hgt]]; [|exact Heq|].
  - assert (2 ^ Zdigits2 m <= 2 ^ (d - 1)) by (apply Z.pow_le_mono_r; lia). lia.
  - assert (2 ^ d <= 2 ^ (Zdigits2 m - 1)) by (apply Z.pow_le_mono_r; lia). lia.
Qed.

(** A right shift halves the mantissa; [n] of them divide it by [2 ^ n]. *)
Lemma shr_1_m (mrs : shr_record) :
  0 <= shr_m mrs -> shr_m (shr_1 mrs) = shr_m mrs / 2.
Proof.
  destruct mrs as [m r s]. cbn [shr_m]. intros Hm.
  destruct m as [|p|p]; [reflexivity| |lia].
  destruct p as [p|p|]; cbn [shr_1 shr_m].
  - apply Z.div_unique with (r := 1); lia.
  - apply Z.div_unique with (r := 0); lia.
  - reflexivity.
Qed.

Lemma pow2_xO (p : positive) : 2 ^ Zpos p~0 = 2 ^ Zpos p * 2 ^ Zpos p.
Proof. rewrite <- Z.pow_add_r by lia. f_equal. lia. Qed.

Lemma pow2_xI (p : positive) : 2 ^ Zpos p~1 = 2 * (2 ^ Zpos p * 2 ^ Zpos p).
Proof.
  rewrite <- Z.pow_add_r, <- Z.pow_succ_r by lia. f_equal. lia.
Qed.

Lemma pow2_pos (n : Z) : 0 <= n -> 0 < 2 ^ n.
Proof. intros. apply Z.pow_pos_nonneg; lia. Qed.

Lemma iter_shr_1_m (p : positive) (mrs : shr_record) :
  0 <= shr_m mrs ->
  shr_m (SpecFloat.iter_pos shr_1 p mrs) = shr_m mrs / 2 ^ Zpos p.
Proof.
  revert mrs.
  assert (Hpow : 0 < 2 ^ Zpos p) by (apply pow2_pos; lia).
  induction p as [p IH|p IH|]; intros mrs Hm; cbn [SpecFloat.iter_pos].
  - assert (Hp : 0 < 2 ^ Zpos p) by (apply pow2_pos; lia).
    assert (H1 : 0 <= shr_m (shr_1 mrs))
      by (rewrite shr_1_m by trivial; apply Z.div_pos; lia).
    assert (H2 : 0 <= shr_m (SpecFloat.iter_pos shr_1 p (shr_1 mrs)))
      by (rewrite IH by trivial; apply Z.div_pos; lia).
    rewrite IH, IH, shr_1_m, pow2_xI by trivial.
    rewrite !Z.div_div by lia. reflexivity.
  - assert (Hp : 0 < 2 ^ Zpos p) by (apply pow2_pos; lia).
    assert (H2 : 0 <= shr_m (SpecFloat.iter_pos shr_1 p mrs))
      by (rewrite IH by trivial; apply Z.div_pos; lia).
    rewrite IH, IH, pow2_xO by trivial.
    rewrite !Z.div_div by lia. reflexivity.
  - now rewrite shr_1_m.
Qed.

Lemma fexp64 (e : Z) : fexp prec emax e = Z.max (e - 53) (-1074).
Proof. reflexivity. Qed.

(** [shr_fexp] drops the excess digits and raises the exponent by as
    many. *)
Lemma shr_fexp_spec (m e : Z) (l : location) :
  0 <= m ->
  shr_m (fst (shr_fexp prec emax m e l)) = m / 2 ^ excess m e
  /\ snd (shr_fexp prec emax m e l) = e + excess m e.
Proof.
  intros Hm. unfold shr_fexp, shr, excess.
  assert (H0 : shr_m (shr_record_of_loc m l) = m) by (destruct l as [|[]]; reflexivity).
  destruct (fexp prec emax (Zdigits2 m + e) - e) as [|p|p] eqn:E; cbn [fst snd].
  - rewrite H0, Z.max_id. cbn. rewrite Z.div_1_r. lia.
  - rewrite iter_shr_1_m by lia. rewrite H0.
    rewrite Z.max_r by lia. lia.
  - rewrite H0, Z.max_l by lia. cbn. rewrite Z.div_1_r. lia.
Qed.

Lemma round_nearest_even_range (m : Z) (l : location) :
  m <= round_nearest_even m l <= m + 1.
Proof.
  destruct l as [|[]]; cbn; try lia. destruct (Z.even m); lia.
Qed.

(** [binary_round_aux] is [rounded] at the shifted mantissa or at its
    successor. *)
Lemma binary_round_aux_spec (s : bool) (mx ex : Z) (lx : location) :
  0 <= mx ->
  exists m, mx / 2 ^ excess mx ex <= m <= mx / 2 ^ excess mx ex + 1
            /\ binary_round_aux prec emax s mx ex lx
               = rounded s m (ex + excess mx ex).
Proof.
  intros Hmx. unfold binary_round_aux.
  destruct (shr_fexp_spec mx ex lx Hmx) as [Hm1 He1].
  destruct (shr_fexp prec emax mx ex lx) as [mrs' e']. cbn [fst snd] in Hm1, He1.
  set (m := round_nearest_even (shr_m mrs') (loc_of_shr_record mrs')).
  pose proof (round_nearest_even_range (shr_m mrs') (loc_of_shr_record mrs')) as Hr.
  fold m in Hr.
  assert (Hdiv : 0 <= mx / 2 ^ excess mx ex).
  { apply Z.div_pos; [lia|]. apply pow2_pos. unfold excess. lia. }
  assert (Hm : 0 <= m) by lia.
  destruct (shr_fexp_spec m e' loc_Exact Hm) as [Hm2 He2].
  destruct (shr_fexp prec emax m e' loc_Exact) as [mrs'' e'']. cbn [fst snd] in Hm2, He2.
  exists m. split; [lia|].
  unfold rounded. subst e' e''. rewrite Hm2. reflexivity.
Qed.

Lemma excess_spec (m e : Z) :
  excess m e = Z.max 0 (Z.max (Zdigits2 m + e - 53) (-1074) - e).
Proof. reflexivity. Qed.

Lemma pow2_52_53 : 2 ^ 53 = 2 * 2 ^ 52.
Proof. reflexivity. Qed.

(** A mantissa of 53 digits (or 2^53 itself) at an exponent of the format
    is kept by [rounded], up to the overflow check. *)
Lemma rounded_normal (s : bool) (m e : Z) :
  2 ^ 52 <= m <= 2 ^ 53 -> -1074 <= e ->
  rounded s m e = S754_infinity s
  \/ exists p e', rounded s m e = S754_finite s p e'
                  /\ 2 ^ 52 <= Zpos p < 2 ^ 53 /\ e <= e'.
Proof.
  intros Hm He. unfold rounded.
  destruct (Z.eq_dec m (2 ^ 53)) as [-> | Hne].
  - assert (Hex : excess (2 ^ 53) e = 1).
    { rewrite excess_spec. change (Zdigits2 (2 ^ 53)) with 54. lia. }
    rewrite Hex. change (2 ^ 53 / 2 ^ 1) with (Zpos (2 ^ 52)).
    destruct (_ <=? _); [right|now left].
    do 2 eexists. split; [reflexivity|]. split; [|lia]. cbn. lia.
  - assert (Hd : Zdigits2 m = 53) by (apply Zdigits2_unique; lia).
    assert (Hex : excess m e = 0) by (rewrite excess_spec, Hd; lia).
    rewrite Hex, Z.pow_0_r, Z.div_1_r, Z.add_0_r.
    destruct m as [|p|p]; try lia.
    destruct (_ <=? _); [right|now left].
    do 2 eexists. split; [reflexivity|]. lia.
Qed.

Lemma div_pow2_bounds (m d k : Z) :
  0 <= k <= d - 1 ->
  2 ^ (d - 1) <= m < 2 ^ d ->
  2 ^ (d - 1 - k) <= m / 2 ^ k < 2 ^ (d - k).
Proof.
  intros Hk [Hlo Hhi].
  assert (Hp : 0 < 2 ^ k) by (apply pow2_pos; lia).
  split.
  - apply Z.div_le_lower_bound; [lia|].
    rewrite <- Z.pow_add_r by lia. now replace (k + (d - 1 - k)) with (d - 1) by lia.
  - apply Z.div_lt_upper_bound; [lia|].
    rewrite <- Z.pow_add_r by lia. now replace (k + (d - k)) with d by lia.
Qed.

Lemma Zdigits2_lower (m n : Z) :
  0 <= n -> 2 ^ n <= m -> n + 1 <= Zdigits2 m.
Proof.
  intros Hn Hm.
  assert (H0 : 0 < m) by (pose proof (pow2_pos n Hn); lia).
  pose proof (Zdigits2_bounds m H0) as [_ Hhi].
  pose proof (Zdigits2_pos m H0).
  assert (Hlt : 2 ^ n < 2 ^ Zdigits2 m) by lia.
  apply Z.pow_lt_mono_r_iff in Hlt; lia.
Qed.

Lemma Zdigits2_shift (m k : Z) :
  0 < m -> 0 <= k -> Zdigits2 (m * 2 ^ k) = Zdigits2 m + k.
Proof.
  intros Hm Hk.
  pose proof (Zdigits2_bounds m Hm) as [Hlo Hhi].
  pose proof (Zdigits2_pos m Hm) as Hd.
  pose proof (pow2_pos k Hk) as Hp.
  apply Zdigits2_unique; [|lia]. split.
  - replace (Zdigits2 m + k - 1) with (Zdigits2 m - 1 + k) by lia.
    rewrite Z.pow_add_r by lia. nia.
  - rewrite Z.pow_add_r by lia. nia.
Qed.

Lemma div_eucl_div (a b : Z) : Z.div_eucl a b = (a / b, a mod b).
Proof. unfold Z.div, Z.modulo. now destruct (Z.div_eucl a b). Qed.

Lemma iter_xO (m d : positive) :
  Zpos (Pos.iter xO m d) = Zpos m * 2 ^ Zpos d.
Proof.
  induction d as [|d IH] using Pos.peano_ind.
  - cbn. lia.
  - rewrite Pos.iter_succ, Pos2Z.inj_xO, IH, Pos2Z.inj_succ, Z.pow_succ_r by lia.
    lia.
Qed.

(** [shl_align] lowers the exponent to [e'] when that is smaller, and
    keeps the value. *)
Lemma shl_align_spec (m : positive) (e e' : Z) :
  snd (shl_align m e e') = Z.min e e'
  /\ Zpos (fst (shl_align m e e')) = Zpos m * 2 ^ (e - Z.min e e').
Proof.
  unfold shl_align. destruct (e' - e) as [|d|d] eqn:E; cbn [fst snd].
  - replace (Z.min e e') with e by lia. rewrite Z.sub_diag. cbn. lia.
  - replace (Z.min e e') with e by lia. rewrite Z.sub_diag. cbn. lia.
  - replace (Z.min e e') with e' by lia. rewrite iter_xO.
    replace (e - e') with (Zpos d) by lia. lia.
Qed.

Lemma pow2_lt_exp (a b x : Z) :
  0 <= a -> 0 <= b -> 2 ^ a <= x -> x < 2 ^ b -> a < b.
Proof.
  intros Ha Hb H1 H2. apply (Z.pow_lt_mono_r_iff 2); lia.
Qed.

Lemma canonical_bounds (m : positive) (e : Z) :
  canonical_mantissa prec emax m e = true ->
  -1074 <= e /\ Zpos m < 2 ^ 53 /\ (-1074 < e -> 2 ^ 52 <= Zpos m).
Proof.
  unfold canonical_mantissa. intros H. apply Z.eqb_eq in H. rewrite fexp64 in H.
  pose proof (digits2_pos_bounds m) as [Hlo Hhi].
  assert (Hd : Zpos (digits2_pos m) <= 53) by lia.
  repeat split.
  - lia.
  - assert (2 ^ Zpos (digits2_pos m) <= 2 ^ 53) by (apply Z.pow_le_mono_r; lia). lia.
  - intros He. replace (Zpos (digits2_pos m)) with 53 in Hlo by lia. exact Hlo.
Qed.

(** On canonical positive numbers [SFcompare] is the order of values. *)
Lemma compare_lt (m1 m2 : positive) (e1 e2 : Z) :
  canonical_mantissa prec emax m1 e1 = true ->
  canonical_mantissa prec emax m2 e2 = true ->
  val (Zpos m1) e1 < val (Zpos m2) e2 ->
  SFcompare (S754_finite false m1 e1) (S754_finite false m2 e2) = Some Lt.
Proof.
  intros H1 H2 Hlt. cbn [SFcompare].
  apply canonical_bounds in H1 as (He1 & Hm1 & Hn1).
  apply canonical_bounds in H2 as (He2 & Hm2 & Hn2).
  unfold val in Hlt.
  destruct (Z.compare_spec e1 e2) as [-> | Hlt12 | Hgt12].
  - pose proof (pow2_pos (e2 + 1074) ltac:(lia)).
    change (Pos.compare_cont Eq m1 m2) with (m1 ?= m2)%positive.
    assert (Hc : (m1 ?= m2)%positive = Lt) by (apply Pos.compare_lt_iff; nia).
    now rewrite Hc.
  - reflexivity.
  - exfalso.
    replace (e1 + 1074) with (e1 - e2 + (e2 + 1074)) in Hlt by lia.
    rewrite Z.pow_add_r in Hlt by lia.
    pose proof (pow2_pos (e2 + 1074) ltac:(lia)).
    assert (2 ^ 1 <= 2 ^ (e1 - e2)) by (apply Z.pow_le_mono_r; lia).
    specialize (Hn1 ltac:(lia)). rewrite pow2_52_53 in *.
    change (2 ^ 1) with 2 in *.
    assert (Hm : Zpos m2 < Zpos m1 * 2 ^ (e1 - e2)) by nia.
    assert (Zpos m2 * 2 ^ (e2 + 1074) < Zpos m1 * 2 ^ (e1 - e2) * 2 ^ (e2 + 1074))
      by (apply Z.mul_lt_mono_pos_r; lia).
    lia.
Qed.

Lemma val_normal_lt (m : positive) (e : Z) :
  Zpos m < 2 ^ 53 -> -1074 <= e -> val (Zpos m) e < 2 ^ (53 + e + 1074).
Proof.
  intros Hm He. unfold val.
  replace (53 + e + 1074) with (53 + (e + 1074)) by lia.
  rewrite (Z.pow_add_r 2 53 (e + 1074)) by lia.
  apply Z.mul_lt_mono_pos_r; [apply pow2_pos|]; lia.
Qed.

Lemma digits_le_of_val (m e ea : Z) :
  0 < m -> -1074 <= e -> -1074 <= ea ->
  val m e < 2 ^ (53 + ea + 1074) -> Zdigits2 m + e <= 53 + ea.
Proof.
  intros Hm He Hea Hlt. unfold val in Hlt.
  pose proof (Zdigits2_bounds m Hm) as [Hlo _].
  pose proof (Zdigits2_pos m Hm) as Hd.
  assert (Hlow : 2 ^ (Zdigits2 m - 1 + (e + 1074)) <= m * 2 ^ (e + 1074)).
  { rewrite Z.pow_add_r by lia.
    apply Z.mul_le_mono_nonneg_r; [apply Z.lt_le_incl, pow2_pos|]; lia. }
  pose proof (pow2_lt_exp (Zdigits2 m - 1 + (e + 1074)) (53 + ea + 1074)
                (m * 2 ^ (e + 1074)) ltac:(lia) ltac:(lia) Hlow Hlt).
  lia.
Qed.

Lemma excess_le (m e ea : Z) :
  -1074 <= ea -> e <= ea -> Zdigits2 m + e <= 53 + ea ->
  e + excess m e <= ea.
Proof. intros. rewrite excess_spec. lia. Qed.

Lemma val_div_le (m e x : Z) :
  0 <= m -> 0 <= x -> -1074 <= e -> val (m / 2 ^ x) (e + x) <= val m e.
Proof.
  intros Hm Hx He. unfold val.
  replace (e + x + 1074) with (x + (e + 1074)) by lia.
  rewrite Z.pow_add_r by lia.
  pose proof (pow2_pos x Hx). pose proof (pow2_pos (e + 1074) ltac:(lia)).
  pose proof (Z.mul_div_le m (2 ^ x) ltac:(lia)).
  rewrite Z.mul_assoc. apply Z.mul_le_mono_nonneg_r; lia.
Qed.

Lemma excess_nonneg (m e : Z) : 0 <= excess m e.
Proof. rewrite excess_spec. lia. Qed.

(** The three shapes of [rounded] on a non-negative mantissa. *)
Lemma rounded_shape (s : bool) (m e : Z) :
  0 <= m ->
  rounded s m e = S754_zero s
  \/ (rounded s m e = S754_infinity s /\ 0 < m /\ emax - prec < e + excess m e)
  \/ exists p, rounded s m e = S754_finite s p (e + excess m e)
               /\ Zpos p = m / 2 ^ excess m e.
Proof.
  intros Hm. unfold rounded.
  pose proof (excess_nonneg m e) as Hx.
  pose proof (Z.div_pos m (2 ^ excess m e) Hm (pow2_pos _ Hx)) as Hq.
  destruct (m / 2 ^ excess m e) as [|p|p] eqn:E; [now left| |lia].
  right. destruct (Z.leb_spec (e + excess m e) (emax - prec)).
  - right. now exists p.
  - left. repeat split; trivial.
    destruct (Z.eq_dec m 0) as [-> | ]; [|lia].
    rewrite Z.div_0_l in E by (pose proof (pow2_pos _ Hx); lia). discriminate.
Qed.

(** A non-negative mantissa does not round to NaN, and a negative result
    is below every positive number. *)
Lemma binary_round_negative_below (p ma : positive) (ez ea : Z) :
  SFcompare (binary_round prec emax true p ez) (S754_finite false ma ea) = Some Lt.
Proof.
  unfold binary_round. destruct (shl_align p ez _) as [mz ez'].
  destruct (binary_round_aux_spec true (Zpos mz) ez' loc_Exact) as (m & Hmr & ->);
    [lia|].
  assert (Hm0 : 0 <= m).
  { pose proof (Z.div_pos (Zpos mz) (2 ^ excess (Zpos mz) ez') ltac:(lia)
                  (pow2_pos _ (excess_nonneg _ _))). lia. }
  destruct (rounded_shape true m (ez' + excess (Zpos mz) ez') Hm0)
    as [-> | [(-> & _) | (q & -> & _)]]; reflexivity.
Qed.







(** *** Lower bounds by value

    The same reading of [binary_round_aux] bounds a rounded value from
    below by a power of two, whether the result is normal or not. *)

Lemma Zdigits2_mono (m n : Z) : 0 < m -> m <= n -> Zdigits2 m <= Zdigits2 n.
Proof.
  intros Hm Hmn.
  pose proof (Zdigits2_bounds m Hm) as [Hlo _].
  pose proof (Zdigits2_pos m Hm) as Hd.
  pose proof (Zdigits2_lower n (Zdigits2 m - 1) ltac:(lia) ltac:(lia)). lia.
Qed.

(** A mantissa of at most 53 digits at the smallest exponent is kept by
    [rounded]. *)
Lemma rounded_subnormal (m : Z) :
  0 < m <= 2 ^ 52 ->
  exists p, rounded false m (-1074) = S754_finite false p (-1074) /\ Zpos p = m.
Proof.
  intros Hm. unfold rounded.
  assert (Hd : Zdigits2 m <= 53).
  { pose proof (Zdigits2_mono m (2 ^ 52) ltac:(lia) ltac:(lia)) as H.
    change (Zdigits2 (2 ^ 52)) with 53 in H. exact H. }
  assert (Hex : excess m (-1074) = 0) by (rewrite excess_spec; lia).
  rewrite Hex, Z.pow_0_r, Z.div_1_r, Z.add_0_r.
  destruct m as [|p|p]; try lia. now exists p.
Qed.

Lemma binary_round_aux_val (mx ex t : Z) (lx : location) :
  0 < mx -> ex <= fexp prec emax (Zdigits2 mx + ex) ->
  0 <= t -> t + 1 <= Zdigits2 mx + ex + 1074 ->
  val_at_least t (binary_round_aux prec emax false mx ex lx).
Proof.
  intros Hmx Hex Ht Hd. rewrite fexp64 in Hex.
  destruct (binary_round_aux_spec false mx ex lx) as (m & Hm & ->); [lia|].
  pose proof (Zdigits2_bounds mx Hmx) as Hb.
  destruct (Z.le_gt_cases (-1074) (Zdigits2 mx + ex - 53)) as [Hn | Hs].
  - assert (Hx : excess mx ex = Zdigits2 mx - 53) by (rewrite excess_spec; lia).
    rewrite Hx in *.
    pose proof (div_pow2_bounds mx (Zdigits2 mx) (Zdigits2 mx - 53)
                  ltac:(lia) Hb) as Hq.
    replace (Zdigits2 mx - 1 - (Zdigits2 mx - 53)) with 52 in Hq by lia.
    replace (Zdigits2 mx - (Zdigits2 mx - 53)) with 53 in Hq by lia.
    destruct (rounded_normal false m (ex + (Zdigits2 mx - 53)))
      as [-> | (p & e' & -> & Hp & He')]; [lia|lia|exact I|].
    cbn [val_at_least].
    rewrite (Zdigits2_unique (Zpos p) 53) by lia. lia.
  - assert (Hx : excess mx ex = -1074 - ex) by (rewrite excess_spec; lia).
    rewrite Hx in *.
    pose proof (div_pow2_bounds mx (Zdigits2 mx) (-1074 - ex)
                  ltac:(lia) Hb) as Hq.
    replace (ex + (-1074 - ex)) with (-1074) by lia.
    assert (Hpow : 2 ^ (Zdigits2 mx - (-1074 - ex)) <= 2 ^ 52)
      by (apply Z.pow_le_mono_r; lia).
    assert (Hpos : 0 < 2 ^ (Zdigits2 mx - 1 - (-1074 - ex)))
      by (apply pow2_pos; lia).
    destruct (rounded_subnormal m ltac:(lia)) as (p & -> & Hp).
    cbn [val_at_least]. rewrite Hp.
    pose proof (Zdigits2_lower m (Zdigits2 mx - 1 - (-1074 - ex))
                  ltac:(lia) ltac:(lia)).
    lia.
Qed.

Lemma binary_round_val (m : positive) (e t : Z) :
  0 <= t -> t + 1 <= Zdigits2 (Zpos m) + e + 1074 ->
  val_at_least t (binary_round prec emax false m e).
Proof.
  intros Ht Hd. unfold binary_round.
  change (Zpos (digits2_pos m)) with (Zdigits2 (Zpos m)).
  pose proof (shl_align_spec m e (fexp prec emax (Zdigits2 (Zpos m) + e))) as [He Hm].
  destruct (shl_align m e _) as [mz ez]. cbn [fst snd] in He, Hm.
  assert (Hdz : Zdigits2 (Zpos mz) = Zdigits2 (Zpos m) + (e - ez)).
  { rewrite Hm, He. apply Zdigits2_shift; lia. }
  apply binary_round_aux_val; try lia.
  rewrite Hdz. replace (Zdigits2 (Zpos m) + (e - ez) + ez)
    with (Zdigits2 (Zpos m) + e) by lia.
  lia.
Qed.

(** The product with a normal number. *)
Lemma mul_val (ma mc : positive) (ea ec t : Z) :
  2 ^ 52 <= Zpos mc -> 0 <= t ->
  t + 1 <= Zdigits2 (Zpos ma) + 52 + ea + ec + 1074 ->
  val_at_least t (SF64mul (S754_finite false ma ea) (S754_finite false mc ec)).
Proof.
  intros Hc Ht Hd. unfold SF64mul, SFmul. cbn [xorb].
  pose proof (Zdigits2_bounds (Zpos ma) ltac:(lia)) as [Hlo _].
  pose proof (Zdigits2_pos (Zpos ma) ltac:(lia)) as Hda.
  assert (Hprod : 2 ^ (Zdigits2 (Zpos ma) - 1 + 52) <= Zpos (ma * mc)).
  { rewrite Pos2Z.inj_mul, Z.pow_add_r by lia.
    pose proof (pow2_pos (Zdigits2 (Zpos ma) - 1) ltac:(lia)). nia. }
  pose proof (Zdigits2_lower _ (Zdigits2 (Zpos ma) - 1 + 52) ltac:(lia) Hprod) as Hdp.
  apply binary_round_aux_val; try lia.
  rewrite fexp64. lia.
Qed.

Lemma fexp_mono (a b : Z) : a <= b -> fexp prec emax a <= fexp prec emax b.
Proof. intros H. rewrite !fexp64. lia. Qed.

(** The quotient by a positive number. *)
Lemma div_val (t0 t : Z) (x : spec_float) (mc : positive) (ec : Z) :
  val_at_least t0 x -> 0 <= t ->
  t <= t0 - (Zdigits2 (Zpos mc) + ec) ->
  val_at_least t (SF64div x (S754_finite false mc ec)).
Proof.
  intros Hx Ht Hd.
  destruct x as [s|[]| |[] mp ep]; cbn [val_at_least] in Hx; try contradiction;
    [exact I|].
  unfold SF64div, SFdiv, SFdiv_core_binary. cbn [xorb].
  set (d1 := Zdigits2 (Zpos mp)) in *. set (d2 := Zdigits2 (Zpos mc)) in *.
  set (z := d1 + ep - (d2 + ec)).
  set (e' := Z.min (fexp prec emax z) (ep - ec)).
  pose proof (Zdigits2_bounds (Zpos mp) ltac:(lia)) as [Hlo1 _].
  pose proof (Zdigits2_bounds (Zpos mc) ltac:(lia)) as [_ Hhi2].
  pose proof (Zdigits2_pos (Zpos mp) ltac:(lia)) as Hd1.
  pose proof (Zdigits2_pos (Zpos mc) ltac:(lia)) as Hd2.
  fold d1 in Hlo1, Hd1. fold d2 in Hhi2, Hd2.
  assert (Hs : 0 <= ep - ec - e') by (unfold e'; lia).
  assert (Hk : 0 <= d1 - 1 + (ep - ec - e') - d2).
  { unfold e'. rewrite fexp64. unfold z. lia. }
  assert (Hfz : e' <= fexp prec emax z) by (unfold e'; lia).
  clearbody e'.
  set (m' := match ep - ec - e' with
             | 0 => Zpos mp
             | Zpos _ => Z.shiftl (Zpos mp) (ep - ec - e')
             | Zneg _ => 0
             end).
  assert (Hm' : m' = Zpos mp * 2 ^ (ep - ec - e')).
  { unfold m'. destruct (ep - ec - e') as [|p|p] eqn:E; try lia.
    now rewrite Z.shiftl_mul_pow2 by lia. }
  rewrite div_eucl_div.
  set (q := m' / Zpos mc).
  assert (Hq : 2 ^ (d1 - 1 + (ep - ec - e') - d2) <= q).
  { unfold q. apply Z.div_le_lower_bound; [lia|]. rewrite Hm'.
    replace (d1 - 1 + (ep - ec - e') - d2)
      with ((d1 - 1 - d2) + (ep - ec - e')) by lia.
    pose proof (pow2_pos (ep - ec - e') Hs) as Hp.
    destruct (Z.le_gt_cases d2 (d1 - 1)) as [Hle | Hgt].
    - rewrite (Z.pow_add_r 2 (d1 - 1 - d2)) by lia.
      assert (Zpos mc * 2 ^ (d1 - 1 - d2) <= 2 ^ (d1 - 1)).
      { replace (d1 - 1) with (d2 + (d1 - 1 - d2)) at 2 by lia.
        rewrite (Z.pow_add_r 2 d2) by lia.
        pose proof (pow2_pos (d1 - 1 - d2) ltac:(lia)). nia. }
      nia.
    - (* the shift makes up for the wider divisor *)
      replace (ep - ec - e') with ((d2 - (d1 - 1)) + ((d1 - 1 - d2) + (ep - ec - e')))
        at 2 by lia.
      rewrite (Z.pow_add_r 2 (d2 - (d1 - 1))) by lia.
      pose proof (pow2_pos ((d1 - 1 - d2) + (ep - ec - e')) ltac:(lia)).
      assert (Zpos mc <= Zpos mp * 2 ^ (d2 - (d1 - 1))).
      { assert (2 ^ d2 = 2 ^ (d1 - 1) * 2 ^ (d2 - (d1 - 1))).
        { rewrite <- Z.pow_add_r by lia. f_equal. lia. }
        pose proof (pow2_pos (d2 - (d1 - 1)) ltac:(lia)). nia. }
      nia. }
  pose proof (pow2_pos _ Hk) as Hqpos.
  pose proof (Zdigits2_lower q _ Hk Hq) as Hdq.
  assert (Hz : z <= Zdigits2 q + e') by (unfold z; lia).
  pose proof (fexp_mono z (Zdigits2 q + e') Hz) as Hmono.
  apply binary_round_aux_val; lia.
Qed.

(** The sum with a positive number is at least each of the two. *)
Lemma add_val (x : spec_float) (mc : positive) (ec t : Z) :
  sf_nonneg x -> 0 <= t ->
  val_at_least t x \/ t + 1 <= Zdigits2 (Zpos mc) + ec + 1074 ->
  val_at_least t (SF64add x (S754_finite false mc ec)).
Proof.
  intros Hx Ht Hd.
  destruct x as [s|[]| |[] mh eh]; cbn [sf_nonneg] in Hx; try contradiction;
    unfold SF64add, SFadd.
  - destruct Hd as [Hd | Hd]; [destruct Hd|exact Hd].
  - exact I.
  - cbn [cond_Zopp].
    pose proof (shl_align_spec mh eh (Z.min eh ec)) as [_ H1].
    pose proof (shl_align_spec mc ec (Z.min eh ec)) as [_ H2].
    replace (Z.min eh (Z.min eh ec)) with (Z.min eh ec) in H1 by lia.
    replace (Z.min ec (Z.min eh ec)) with (Z.min eh ec) in H2 by lia.
    set (ez := Z.min eh ec) in *.
    set (a := fst (shl_align mh eh ez)) in *.
    set (b := fst (shl_align mc ec ez)) in *.
    change (Zpos a + Zpos b) with (Zpos (a + b)). cbn [binary_normalize].
    apply binary_round_val; [exact Ht|].
    assert (Ha : Zdigits2 (Zpos a) = Zdigits2 (Zpos mh) + (eh - ez))
      by (rewrite H1; apply Zdigits2_shift; lia).
    assert (Hb : Zdigits2 (Zpos b) = Zdigits2 (Zpos mc) + (ec - ez))
      by (rewrite H2; apply Zdigits2_shift; lia).
    pose proof (Zdigits2_mono (Zpos a) (Zpos (a + b)) ltac:(lia) ltac:(lia)).
    pose proof (Zdigits2_mono (Zpos b) (Zpos (a + b)) ltac:(lia) ltac:(lia)).
    cbn [val_at_least] in Hd. lia.
Qed.

(** *** Exact results and signs *)

Lemma sub_self (x : float) : is_finite x = true -> (x - x)%float = 0%float.
Proof.
  intros Hx. apply Prim2SF_inj. rewrite sub_spec.
  change (Prim2SF 0) with (S754_zero false).
  apply is_finite_Prim2SF in Hx as [[s E] | (s & m & e & E)]; rewrite E.
  - now destruct s.
  - unfold SF64sub, SFsub. now rewrite Z.sub_diag.
Qed.

Lemma leb_zero_nonneg (x : float) :
  (0 <=? x)%float = true <-> sf_nonneg (Prim2SF x).
Proof.
  rewrite leb_spec. change (Prim2SF 0) with (S754_zero false). unfold SFleb.
  destruct (Prim2SF x) as [s|[]| |[] m e]; cbn; intuition discriminate.
Qed.

Lemma positive_finite_Prim2SF (x : float) :
  positive_finite x = true -> exists m e, Prim2SF x = S754_finite false m e.
Proof.
  unfold positive_finite. intros H. apply andb_true_iff in H as [Hfin Hlt].
  rewrite ltb_spec in Hlt. change (Prim2SF 0) with (S754_zero false) in Hlt.
  unfold SFltb in Hlt.
  apply is_finite_Prim2SF in Hfin as [[s E] | (s & m & e & E)];
    rewrite E in Hlt |- *.
  - discriminate Hlt.
  - destruct s; [discriminate Hlt|eauto].
Qed.

Lemma nonneg_finite_Prim2SF (x : float) :
  nonneg_finite x = true ->
  (exists s, Prim2SF x = S754_zero s)
  \/ exists m e, Prim2SF x = S754_finite false m e.
Proof.
  unfold nonneg_finite. intros H. apply andb_true_iff in H as [Hfin Hle].
  apply leb_zero_nonneg in Hle.
  apply is_finite_Prim2SF in Hfin as [[s E] | (s & m & e & E)];
    rewrite E in Hle |- *; [eauto|].
  destruct s; [contradiction|eauto].
Qed.

Lemma binary_round_aux_nonneg (m e : Z) (l : location) :
  0 <= m -> sf_nonneg (binary_round_aux prec emax false m e l).
Proof.
  intros Hm.
  destruct (binary_round_aux_spec false m e l Hm) as (m' & Hm' & ->).
  assert (H0 : 0 <= m').
  { pose proof (Z.div_pos m (2 ^ excess m e) Hm (pow2_pos _ (excess_nonneg _ _))).
    lia. }
  destruct (rounded_shape false m' (e + excess m e) H0)
    as [-> | [(-> & _) | (q & -> & _)]]; exact I.
Qed.

Lemma mul_nonneg (x : spec_float) (m : positive) (e : Z) :
  sf_nonneg x -> sf_nonneg (SF64mul x (S754_finite false m e)).
Proof.
  destruct x as [s|[]| |[] mx ex]; cbn [sf_nonneg]; try contradiction;
    intros _; unfold SF64mul, SFmul; cbn [xorb]; try exact I.
  now apply binary_round_aux_nonneg.
Qed.

Lemma div_nonneg (x : spec_float) (m : positive) (e : Z) :
  sf_nonneg x -> sf_nonneg (SF64div x (S754_finite false m e)).
Proof.
  destruct x as [s|[]| |[] mx ex]; cbn [sf_nonneg]; try contradiction;
    intros _; unfold SF64div, SFdiv; cbn [xorb]; try exact I.
  unfold SFdiv_core_binary. rewrite div_eucl_div.
  apply binary_round_aux_nonneg. apply Z.div_pos; [|lia].
  destruct (_ - _ - _) as [|p|p]; try lia.
  rewrite Z.shiftl_mul_pow2 by lia. pose proof (pow2_pos (Zpos p)). lia.
Qed.

Lemma add_nonneg (x y : spec_float) :
  sf_nonneg x ->
  (exists s, y = S754_zero s) \/ (exists m e, y = S754_finite false m e) ->
  sf_nonneg (SF64add x y).
Proof.
  intros Hx [[s ->] | (m & e & ->)];
    destruct x as [sx|[]| |[] mx ex]; cbn [sf_nonneg] in Hx; try contradiction;
    unfold SF64add, SFadd; try exact I.
  - destruct sx, s; exact I.
  - cbn [cond_Zopp].
    change (Zpos ?a + Zpos ?b) with (Zpos (a + b)). cbn [binary_normalize].
    unfold binary_round. destruct (shl_align _ _ _) as [mz ez].
    now apply binary_round_aux_nonneg.
Qed.

Lemma percent_fee_nonneg (amount percent : float) :
  sf_nonneg (Prim2SF amount) -> positive_finite percent = true ->
  sf_nonneg (Prim2SF (amount * percent / 100)).
Proof.
  intros Ha Hp. apply positive_finite_Prim2SF in Hp as (m & e & Hp).
  rewrite div_spec, mul_spec, Hp.
  change (Prim2SF 100) with (S754_finite false 7036874417766400 (-46)).
  now apply div_nonneg, mul_nonneg.
Qed.

Lemma shr_1_even (k : Z) :
  0 <= k ->
  shr_1 {| shr_m := 2 * k; shr_r := false; shr_s := false |}
  = {| shr_m := k; shr_r := false; shr_s := false |}.
Proof. destruct k as [|p|p]; [reflexivity|reflexivity|lia]. Qed.

(** Shifting out digits that are all zero leaves an exact result. *)
Lemma iter_shr_1_exact (p : positive) (k : Z) :
  0 <= k ->
  SpecFloat.iter_pos shr_1 p
    {| shr_m := k * 2 ^ Zpos p; shr_r := false; shr_s := false |}
  = {| shr_m := k; shr_r := false; shr_s := false |}.
Proof.
  revert k. induction p as [p IH|p IH|]; intros k Hk; cbn [SpecFloat.iter_pos].
  - assert (Hp : 0 < 2 ^ Zpos p) by (apply pow2_pos; lia).
    rewrite pow2_xI.
    replace (k * (2 * (2 ^ Zpos p * 2 ^ Zpos p)))
      with (2 * (k * 2 ^ Zpos p * 2 ^ Zpos p)) by lia.
    rewrite shr_1_even by nia. rewrite IH by nia. now apply IH.
  - assert (Hp : 0 < 2 ^ Zpos p) by (apply pow2_pos; lia).
    rewrite pow2_xO, Z.mul_assoc. rewrite IH by nia. now apply IH.
  - change (2 ^ 1) with 2. rewrite Z.mul_comm. now apply shr_1_even.
Qed.

(** Rounding a canonical mantissa that was widened by [2 ^ 52] gives the
    mantissa back. *)
Lemma binary_round_aux_widened (s : bool) (m : positive) (e : Z) :
  bounded prec emax m e = true ->
  binary_round_aux prec emax s (Zpos m * 2 ^ 52) (e - 52) loc_Exact
  = S754_finite s m e.
Proof.
  intros Hb. unfold bounded in Hb. apply andb_true_iff in Hb as [Hcan Hmax].
  unfold canonical_mantissa in Hcan. apply Z.eqb_eq in Hcan.
  change (Zpos (digits2_pos m)) with (Zdigits2 (Zpos m)) in Hcan.
  unfold binary_round_aux.
  assert (H1 : shr_fexp prec emax (Zpos m * 2 ^ 52) (e - 52) loc_Exact
               = ({| shr_m := Zpos m; shr_r := false; shr_s := false |}, e)).
  { unfold shr_fexp. rewrite Zdigits2_shift by lia.
    replace (Zdigits2 (Zpos m) + 52 + (e - 52)) with (Zdigits2 (Zpos m) + e)
      by lia.
    rewrite Hcan. replace (e - (e - 52)) with 52 by lia.
    unfold shr. cbn [shr_record_of_loc].
    rewrite (iter_shr_1_exact 52 (Zpos m)) by lia. f_equal. lia. }
  rewrite H1. cbn [shr_m loc_of_shr_record round_nearest_even].
  assert (H2 : shr_fexp prec emax (Zpos m) e loc_Exact
               = ({| shr_m := Zpos m; shr_r := false; shr_s := false |}, e)).
  { unfold shr_fexp. rewrite Hcan, Z.sub_diag. reflexivity. }
  rewrite H2. cbn [shr_m]. now rewrite Hmax.
Qed.

(** Multiplying by [1.0] returns the other factor. *)
Lemma mul_one (x : float) : (x * 1)%float = x.
Proof.
  apply Prim2SF_inj. rewrite mul_spec.
  change (Prim2SF 1) with (S754_finite false 4503599627370496 (-52)).
  pose proof (Prim2SF_valid x) as Hv.
  destruct (Prim2SF x) as [s|s| |s m e]; unfold SF64mul, SFmul;
    [now destruct s|now destruct s|reflexivity|].
  cbn [valid_binary] in Hv.
  rewrite xorb_false_r.
  change (Zpos (m * 4503599627370496)) with (Zpos m * 2 ^ 52).
  change (e + -52) with (e - 52).
  now apply binary_round_aux_widened.
Qed.

Lemma is_finite_valid (x : float) :
  is_finite x = true -> finite_valid (Prim2SF x).
Proof.
  intros H. pose proof (Prim2SF_valid x) as Hv.
  apply is_finite_Prim2SF in H as [[s E] | (s & m & e & E)];
    rewrite E in Hv |- *; cbn [finite_valid]; [exact I|].
  cbn [valid_binary bounded] in Hv. now apply andb_true_iff in Hv as [Hc _].
Qed.

Lemma val_pos (m : positive) (e : Z) : -1074 <= e -> 0 < val (Zpos m) e.
Proof.
  intros He. unfold val. pose proof (pow2_pos (e + 1074) ltac:(lia)). lia.
Qed.

(** Of two canonical numbers the one of smaller exponent is smaller. *)
Lemma val_lt_exp (m1 m2 : positive) (e1 e2 : Z) :
  canonical_mantissa prec emax m1 e1 = true ->
  canonical_mantissa prec emax m2 e2 = true ->
  e1 < e2 -> val (Zpos m1) e1 < val (Zpos m2) e2.
Proof.
  intros H1 H2 Hlt.
  apply canonical_bounds in H1 as (He1 & Hm1 & _).
  apply canonical_bounds in H2 as (He2 & _ & Hn2).
  specialize (Hn2 ltac:(lia)). unfold val.
  replace (e2 + 1074) with (e2 - e1 + (e1 + 1074)) by lia.
  rewrite (Z.pow_add_r 2 (e2 - e1) (e1 + 1074)) by lia.
  pose proof (pow2_pos (e1 + 1074) ltac:(lia)).
  assert (2 ^ 1 <= 2 ^ (e2 - e1)) by (apply Z.pow_le_mono_r; lia).
  rewrite pow2_52_53 in Hm1. change (2 ^ 1) with 2 in *.
  assert (Hm : Zpos m1 < Zpos m2 * 2 ^ (e2 - e1)) by nia.
  assert (Zpos m1 * 2 ^ (e1 + 1074)
          < Zpos m2 * 2 ^ (e2 - e1) * 2 ^ (e1 + 1074))
    by (apply Z.mul_lt_mono_pos_r; lia).
  lia.
Qed.

(** On canonical positive numbers [SFcompare] compares the values. *)
Lemma compare_pos (m1 m2 : positive) (e1 e2 : Z) :
  canonical_mantissa prec emax m1 e1 = true ->
  canonical_mantissa prec emax m2 e2 = true ->
  SFcompare (S754_finite false m1 e1) (S754_finite false m2 e2)
  = Some (val (Zpos m1) e1 ?= val (Zpos m2) e2).
Proof.
  intros H1 H2. cbn [SFcompare]. f_equal.
  destruct (Z.compare_spec e1 e2) as [-> | Hlt | Hgt].
  - unfold val. pose proof (canonical_bounds _ _ H2) as (He & _).
    rewrite <- Zmult_compare_compat_r
      by (pose proof (pow2_pos (e2 + 1074) ltac:(lia)); lia).
    reflexivity.
  - symmetry. apply Z.compare_lt_iff. now apply val_lt_exp.
  - symmetry. apply Z.compare_gt_iff. now apply val_lt_exp.
Qed.

(** On zeros and finite numbers [SFcompare] compares the signed
    values. *)
Lemma compare_signed (x y : spec_float) :
  finite_valid x -> finite_valid y ->
  SFcompare x y = Some (signed_val x ?= signed_val y).
Proof.
  destruct x as [sx| | |sx mx ex], y as [sy| | |sy my ey];
    cbn [finite_valid]; try contradiction; intros Hx Hy.
  - reflexivity.
  - pose proof (canonical_bounds _ _ Hy) as (He & _).
    pose proof (val_pos my ey He). cbn [SFcompare signed_val]. f_equal.
    destruct sy; cbn [cond_Zopp]; symmetry;
      [apply Z.compare_gt_iff|apply Z.compare_lt_iff]; lia.
  - pose proof (canonical_bounds _ _ Hx) as (He & _).
    pose proof (val_pos mx ex He). cbn [SFcompare signed_val]. f_equal.
    destruct sx; cbn [cond_Zopp]; symmetry;
      [apply Z.compare_lt_iff|apply Z.compare_gt_iff]; lia.
  - pose proof (canonical_bounds _ _ Hx) as (Hex & _).
    pose proof (canonical_bounds _ _ Hy) as (Hey & _).
    pose proof (val_pos mx ex Hex). pose proof (val_pos my ey Hey).
    destruct sx, sy; cbn [signed_val cond_Zopp].
    + rewrite Z.compare_opp, <- (compare_pos my mx ey ex Hy Hx).
      cbn [SFcompare]. f_equal. rewrite (Z.compare_antisym ex ey).
      destruct (ex ?= ey); cbn [CompOpp]; try reflexivity.
      change (Pos.compare_cont Eq ?a ?b) with (a ?= b)%positive.
      now rewrite (Pos.compare_antisym mx my).
    + cbn [SFcompare]. f_equal. symmetry. apply Z.compare_lt_iff. lia.
    + cbn [SFcompare]. f_equal. symmetry. apply Z.compare_gt_iff. lia.
    + now apply compare_pos.
Qed.

Lemma div_excess_pos (m e : Z) :
  0 < m -> -1074 <= e -> 0 < m / 2 ^ excess m e.
Proof.
  intros Hm He. rewrite excess_spec.
  pose proof (Zdigits2_bounds m Hm) as [Hlo Hhi].
  pose proof (Zdigits2_pos m Hm) as Hd.
  destruct (Z.le_gt_cases (Zdigits2 m) 53).
  - replace (Z.max 0 _) with 0 by lia. rewrite Z.div_1_r. lia.
  - replace (Z.max 0 _) with (Zdigits2 m - 53) by lia.
    apply Z.div_str_pos. split; [apply pow2_pos; lia|].
    etransitivity; [|exact Hlo]. apply Z.pow_le_mono_r; lia.
Qed.

(** Rounding a positive mantissa at an exponent of the format never
    gives zero: the smallest positive number is kept. *)
Lemma binary_round_aux_nonzero (s : bool) (m e : Z) (l : location) :
  0 < m -> -1074 <= e ->
  nonzero_of_sign s (binary_round_aux prec emax s m e l).
Proof.
  intros Hm He.
  destruct (binary_round_aux_spec s m e l ltac:(lia)) as (m' & Hm' & ->).
  pose proof (div_excess_pos m e Hm He) as Hq.
  pose proof (excess_nonneg m e) as Hx.
  pose proof (div_excess_pos m' (e + excess m e) ltac:(lia) ltac:(lia)) as Hq'.
  unfold nonzero_of_sign, rounded.
  destruct (m' / 2 ^ excess m' (e + excess m e)) as [|p|p]; try lia.
  destruct (_ <=? _); eauto.
Qed.

Lemma binary_round_nonzero (s : bool) (p : positive) (e : Z) :
  -1074 <= e -> nonzero_of_sign s (binary_round prec emax s p e).
Proof.
  intros He. unfold binary_round.
  pose proof (shl_align_spec p e (fexp prec emax (Zpos (digits2_pos p) + e)))
    as [Hs _].
  destruct (shl_align p e _) as [mz ez]. cbn [snd] in Hs.
  apply binary_round_aux_nonzero; [lia|].
  rewrite Hs, fexp64. lia.
Qed.

(** The difference of two finite numbers has the sign of the difference
    of their values: there is no underflow to zero. *)
Lemma sub_signed (x y : spec_float) :
  finite_valid x -> finite_valid y ->
  match signed_val x ?= signed_val y with
  | Gt => nonzero_of_sign false (SF64sub x y)
  | Lt => nonzero_of_sign true (SF64sub x y)
  | Eq => exists s, SF64sub x y = S754_zero s
  end.
Proof.
  destruct x as [sx| | |sx mx ex], y as [sy| | |sy my ey];
    cbn [finite_valid]; try contradiction; intros Hx Hy.
  - cbn [signed_val Z.compare]. destruct sx, sy; eexists; reflexivity.
  - pose proof (canonical_bounds _ _ Hy) as (He & _).
    pose proof (val_pos my ey He). cbn [signed_val].
    unfold SF64sub, SFsub, nonzero_of_sign.
    destruct sy; cbn [cond_Zopp negb];
      destruct (Z.compare_spec 0 (- val (Zpos my) ey));
      destruct (Z.compare_spec 0 (val (Zpos my) ey)); try lia; eauto.
  - pose proof (canonical_bounds _ _ Hx) as (He & _).
    pose proof (val_pos mx ex He). cbn [signed_val].
    unfold SF64sub, SFsub, nonzero_of_sign.
    destruct sx; cbn [cond_Zopp];
      destruct (Z.compare_spec (- val (Zpos mx) ex) 0);
      destruct (Z.compare_spec (val (Zpos mx) ex) 0); try lia; eauto.
  - pose proof (canonical_bounds _ _ Hx) as (Hex & _).
    pose proof (canonical_bounds _ _ Hy) as (Hey & _).
    unfold SF64sub, SFsub.
    pose proof (shl_align_spec mx ex (Z.min ex ey)) as [_ H1].
    pose proof (shl_align_spec my ey (Z.min ex ey)) as [_ H2].
    replace (Z.min ex (Z.min ex ey)) with (Z.min ex ey) in H1 by lia.
    replace (Z.min ey (Z.min ex ey)) with (Z.min ex ey) in H2 by lia.
    set (ez := Z.min ex ey) in *.
    set (a := fst (shl_align mx ex ez)) in *.
    set (b := fst (shl_align my ey ez)) in *.
    pose proof (pow2_pos (ez + 1074) ltac:(lia)) as Hp.
    assert (Ex : signed_val (S754_finite sx mx ex)
                 = cond_Zopp sx (Zpos a) * 2 ^ (ez + 1074)).
    { cbn [signed_val]. unfold val. rewrite H1.
      replace (ex + 1074) with (ex - ez + (ez + 1074)) by lia.
      rewrite (Z.pow_add_r 2 (ex - ez) (ez + 1074)) by lia. destruct sx; cbn [cond_Zopp]; lia. }
    assert (Ey : signed_val (S754_finite sy my ey)
                 = cond_Zopp sy (Zpos b) * 2 ^ (ez + 1074)).
    { cbn [signed_val]. unfold val. rewrite H2.
      replace (ey + 1074) with (ey - ez + (ez + 1074)) by lia.
      rewrite (Z.pow_add_r 2 (ey - ez) (ez + 1074)) by lia. destruct sy; cbn [cond_Zopp]; lia. }
    rewrite Ex, Ey. clear Ex Ey H1 H2.
    set (A := cond_Zopp sx (Zpos a)). set (B := cond_Zopp sy (Zpos b)).
    destruct (A - B) as [|p|p] eqn:ED; cbn [binary_normalize].
    + replace A with B by lia. rewrite Z.compare_refl. eauto.
    + assert (Hc : (A * 2 ^ (ez + 1074) ?= B * 2 ^ (ez + 1074)) = Gt)
        by (apply Z.compare_gt_iff; nia).
      rewrite Hc. apply binary_round_nonzero. lia.
    + assert (Hc : (A * 2 ^ (ez + 1074) ?= B * 2 ^ (ez + 1074)) = Lt)
        by (apply Z.compare_lt_iff; nia).
      rewrite Hc. apply binary_round_nonzero. lia.
Qed.

(** Comparing a difference with zero is comparing its two terms. *)
Lemma sub_compare (x y : float) :
  is_finite x = true -> is_finite y = true ->
  (0 <? x - y)%float = (y <? x)%float
  /\ (x - y <? 0)%float = (x <? y)%float
  /\ (x - y =? 0)%float = (x =? y)%float.
Proof.
  intros Hx Hy. apply is_finite_valid in Hx, Hy.
  rewrite !ltb_spec, !FloatAxioms.eqb_spec, sub_spec.
  change (Prim2SF 0) with (S754_zero false).
  unfold SFltb, SFeqb.
  rewrite (compare_signed _ _ Hy Hx), (compare_signed _ _ Hx Hy).
  pose proof (sub_signed _ _ Hx Hy) as Hs.
  rewrite (Z.compare_antisym (signed_val (Prim2SF x)) (signed_val (Prim2SF y))).
  destruct (signed_val (Prim2SF x) ?= signed_val (Prim2SF y)); cbn [CompOpp].
  - destruct Hs as [s ->]. now destruct s.
  - destruct Hs as [-> | (p & e & ->)]; repeat split; reflexivity.
  - destruct Hs as [-> | (p & e & ->)]; repeat split; reflexivity.
Qed.


(** *** A difference below the minuend *)

(** Rounding a value that lies more than one unit in the last place of
    [a] below [a] gives a number below [a]. *)
Lemma binary_round_lt (p ma : positive) (ez ea : Z) :
  canonical_mantissa prec emax ma ea = true -> ea <= emax - prec ->
  -1074 <= ez <= ea ->
  val (Zpos p) ez + 2 ^ (ea + 1074) < val (Zpos ma) ea ->
  valid_binary (binary_round prec emax false p ez) = true ->
  SFcompare (binary_round prec emax false p ez) (S754_finite false ma ea) = Some Lt.
Proof.
  intros Hcan Hea Hez Hval. unfold binary_round.
  pose proof (canonical_bounds _ _ Hcan) as (Hea0 & Hma & _).
  change (Zpos (digits2_pos p)) with (Zdigits2 (Zpos p)).
  pose proof (shl_align_spec p ez (fexp prec emax (Zdigits2 (Zpos p) + ez))) as [He Hm].
  destruct (shl_align p ez _) as [mz ez']. cbn [fst snd] in He, Hm.
  rewrite fexp64 in He, Hm. rewrite <- He in Hm.
  pose proof (val_normal_lt ma ea ltac:(lia) ltac:(lia)) as Hatop.
  pose proof (pow2_pos (ea + 1074) ltac:(lia)) as Hulp.
  assert (Hvz : val (Zpos mz) ez' = val (Zpos p) ez).
  { unfold val. rewrite Hm, <- Z.mul_assoc, <- Z.pow_add_r by lia.
    do 2 f_equal. lia. }
  assert (Hdz : Zdigits2 (Zpos mz) + ez' <= 53 + ea).
  { apply digits_le_of_val; lia. }
  destruct (binary_round_aux_spec false (Zpos mz) ez' loc_Exact) as (m & Hmr & ->);
    [lia|].
  set (x := excess (Zpos mz) ez') in *.
  pose proof (excess_nonneg (Zpos mz) ez') as Hx. fold x in Hx.
  pose proof (excess_le (Zpos mz) ez' ea ltac:(lia) ltac:(lia) Hdz) as He1.
  fold x in He1.
  assert (Hq : 0 <= Zpos mz / 2 ^ x) by (apply Z.div_pos; [lia|now apply pow2_pos]).
  assert (Hvm : val m (ez' + x) < val (Zpos ma) ea).
  { pose proof (val_div_le (Zpos mz) ez' x ltac:(lia) Hx ltac:(lia)) as Hfloor.
    assert (Hstep : val m (ez' + x)
                    <= val (Zpos mz / 2 ^ x) (ez' + x) + 2 ^ (ez' + x + 1074)).
    { unfold val. pose proof (pow2_pos (ez' + x + 1074) ltac:(lia)). nia. }
    assert (Hpow : 2 ^ (ez' + x + 1074) <= 2 ^ (ea + 1074))
      by (apply Z.pow_le_mono_r; lia).
    lia. }
  assert (Hm0 : 0 <= m) by lia.
  destruct (rounded_shape false m (ez' + x) Hm0)
    as [-> | [(-> & Hpos & Hover) | (q & -> & Hq')]]; intros Hvalid.
  - reflexivity.
  - exfalso.
    pose proof (digits_le_of_val m (ez' + x) ea Hpos ltac:(lia) ltac:(lia)
                  ltac:(lia)) as Hdm.
    pose proof (excess_le m (ez' + x) ea ltac:(lia) He1 Hdm). lia.
  - cbn in Hvalid. apply andb_true_iff in Hvalid as [Hcan' _].
    apply compare_lt; [exact Hcan' | exact Hcan |].
    pose proof (val_div_le m (ez' + x) (excess m (ez' + x)) Hm0
                  (excess_nonneg _ _) ltac:(lia)) as Hfloor.
    rewrite <- Hq' in Hfloor. lia.
Qed.

(** Subtracting from a positive number [a] a positive number of at least
    two units in the last place of [a] gives a number below [a]. *)
Lemma sub_lt (ma mf : positive) (ea ef : Z) :
  canonical_mantissa prec emax ma ea = true -> ea <= emax - prec ->
  -1074 <= ef ->
  val_at_least (ea + 1075) (S754_finite false mf ef) ->
  valid_binary (SF64sub (S754_finite false ma ea) (S754_finite false mf ef)) = true ->
  SFcompare (SF64sub (S754_finite false ma ea) (S754_finite false mf ef))
            (S754_finite false ma ea) = Some Lt.
Proof.
  intros Hcan Hea Hef Hfee. unfold SF64sub, SFsub. cbn [cond_Zopp].
  pose proof (canonical_bounds _ _ Hcan) as (Hea0 & _ & _).
  cbn [val_at_least] in Hfee.
  pose proof (shl_align_spec ma ea (Z.min ea ef)) as [_ H1].
  pose proof (shl_align_spec mf ef (Z.min ea ef)) as [_ H2].
  replace (Z.min ea (Z.min ea ef)) with (Z.min ea ef) in H1 by lia.
  replace (Z.min ef (Z.min ea ef)) with (Z.min ea ef) in H2 by lia.
  set (ez := Z.min ea ef) in *.
  set (a' := fst (shl_align ma ea ez)) in *.
  set (f' := fst (shl_align mf ef ez)) in *.
  assert (Hez : -1074 <= ez <= ea) by lia.
  assert (Hva : val (Zpos a') ez = val (Zpos ma) ea).
  { unfold val. rewrite H1, <- Z.mul_assoc, <- Z.pow_add_r by lia.
    do 2 f_equal. lia. }
  assert (Hvf : val (Zpos f') ez = val (Zpos mf) ef).
  { unfold val. rewrite H2, <- Z.mul_assoc, <- Z.pow_add_r by lia.
    do 2 f_equal. lia. }
  assert (Hf : 2 ^ (ea + 1 + 1074) <= val (Zpos mf) ef).
  { unfold val.
    pose proof (Zdigits2_bounds (Zpos mf) ltac:(lia)) as [Hlo _].
    pose proof (Zdigits2_pos (Zpos mf) ltac:(lia)) as Hdf.
    assert (Hp : 2 ^ (ea + 1 + 1074)
                 <= 2 ^ (Zdigits2 (Zpos mf) - 1 + (ef + 1074)))
      by (apply Z.pow_le_mono_r; lia).
    rewrite (Z.pow_add_r 2 (Zdigits2 (Zpos mf) - 1) (ef + 1074)) in Hp by lia.
    pose proof (pow2_pos (ef + 1074) ltac:(lia)).
    assert (2 ^ (Zdigits2 (Zpos mf) - 1) * 2 ^ (ef + 1074)
            <= Zpos mf * 2 ^ (ef + 1074))
      by (apply Z.mul_le_mono_nonneg_r; lia).
    lia. }
  destruct (Zpos a' - Zpos f') as [|d|d] eqn:E; cbn [binary_normalize].
  - reflexivity.
  - apply binary_round_lt; try lia; [exact Hcan|].
    assert (Hd : val (Zpos d) ez = val (Zpos a') ez - val (Zpos f') ez)
      by (unfold val; rewrite <- E; lia).
    rewrite Hd, Hva, Hvf.
    replace (ea + 1 + 1074) with (1 + (ea + 1074)) in Hf by lia.
    rewrite (Z.pow_add_r 2 1) in Hf by lia. change (2 ^ 1) with 2 in Hf.
    pose proof (pow2_pos (ea + 1074) ltac:(lia)). lia.
  - intros _. apply binary_round_negative_below.
Qed.

(** Subtracting a fee of at least two units in the last place of the
    amount gives a smaller number. *)
Lemma sub_fee_lt (amount fee : float) (ma : positive) (ea : Z) :
  Prim2SF amount = S754_finite false ma ea ->
  val_at_least (ea + 1075) (Prim2SF fee) ->
  (amount - fee <? amount)%float = true.
Proof.
  intros Ea Hfee.
  pose proof (Prim2SF_valid (amount - fee)) as Hvalid.
  pose proof (Prim2SF_valid amount) as Hva.
  pose proof (Prim2SF_valid fee) as Hvf.
  rewrite ltb_spec. rewrite sub_spec in Hvalid |- *. rewrite Ea in Hvalid, Hva |- *.
  cbn [valid_binary bounded] in Hva. apply andb_true_iff in Hva as [Hcan Hmax].
  apply Z.leb_le in Hmax.
  unfold SFltb.
  destruct (Prim2SF fee) as [s|[]| |[] mf ef]; cbn [val_at_least] in Hfee;
    try contradiction.
  - reflexivity.
  - cbn [valid_binary bounded] in Hvf. apply andb_true_iff in Hvf as [Hcf _].
    apply canonical_bounds in Hcf as (Hef & _).
    rewrite sub_lt; trivial.
Qed.

(** *** The default schedules on every positive amount *)

Lemma card_fee_val (amount : float) (ma : positive) (ea : Z) :
  Prim2SF amount = S754_finite false ma ea ->
  val_at_least (ea + 1075) (Prim2SF (calculate_card_fee Config.defaults amount)).
Proof.
  intros Ea.
  pose proof (Prim2SF_valid amount) as Hva. rewrite Ea in Hva.
  cbn [valid_binary bounded] in Hva. apply andb_true_iff in Hva as [Hcan _].
  apply canonical_bounds in Hcan as (Hea & Hlt & Hnorm).
  unfold calculate_card_fee.
  cbn [CARD_FEE_PERCENT CARD_FEE_FIXED Config.defaults].
  rewrite add_spec, div_spec, mul_spec, Ea.
  change (Prim2SF 2.9) with (S754_finite false 6530219459687219 (-51)).
  change (Prim2SF 100) with (S754_finite false 7036874417766400 (-46)).
  change (Prim2SF 0.30) with (S754_finite false 5404319552844595 (-54)).
  apply add_val; [now apply div_nonneg, mul_nonneg|lia|].
  destruct (Z.le_gt_cases ea (-3)) as [Hsmall | Hlarge].
  - right. change (Zdigits2 (Zpos 5404319552844595)) with 53. lia.
  - left. specialize (Hnorm ltac:(lia)).
    assert (Hda : Zdigits2 (Zpos ma) = 53) by (apply Zdigits2_unique; lia).
    apply (div_val (ea + 1127)); [|lia|].
    + apply mul_val; [cbn; lia|lia|]. rewrite Hda. lia.
    + change (Zdigits2 (Zpos 7036874417766400)) with 53. lia.
Qed.

Lemma percent_fee_val (amount percent : float) (ma mc : positive) (ea ec : Z) :
  Prim2SF amount = S754_finite false ma ea ->
  Prim2SF percent = S754_finite false mc ec ->
  2 ^ 52 <= Zpos mc -> -52 <= ec ->
  2 ^ 8 <= Zpos ma ->
  val_at_least (ea + 1075) (Prim2SF (amount * percent / 100)).
Proof.
  intros Ea Ep Hmc Hec Hma.
  pose proof (Prim2SF_valid amount) as Hva. rewrite Ea in Hva.
  cbn [valid_binary bounded] in Hva. apply andb_true_iff in Hva as [Hcan _].
  apply canonical_bounds in Hcan as (Hea & _ & _).
  pose proof (Zdigits2_lower (Zpos ma) 8 ltac:(lia) Hma) as Hda.
  rewrite div_spec, mul_spec, Ea, Ep.
  change (Prim2SF 100) with (S754_finite false 7036874417766400 (-46)).
  apply (div_val (Zdigits2 (Zpos ma) + ea + 1073)); [|lia|].
  - apply mul_val; lia.
  - change (Zdigits2 (Zpos 7036874417766400)) with 53. lia.
Qed.

(** A positive amount below [2 ^ 8] units is one of [tiny_amounts]. *)
Lemma tiny_amount_listed (amount : float) (ma : positive) (ea : Z) :
  Prim2SF amount = S754_finite false ma ea ->
  Zpos ma < 2 ^ 8 -> In amount tiny_amounts.
Proof.
  intros Ea Hma.
  pose proof (Prim2SF_valid amount) as Hva. rewrite Ea in Hva.
  cbn [valid_binary bounded] in Hva. apply andb_true_iff in Hva as [Hcan _].
  apply canonical_bounds in Hcan as (Hea & _ & Hnorm).
  assert (ea = -1074).
  { destruct (Z.eq_dec ea (-1074)) as [E | Hne]; [exact E|].
    specialize (Hnorm ltac:(lia)). change (2 ^ 8) with 256 in Hma.
    change (2 ^ 52) with 4503599627370496 in Hnorm. lia. }
  subst ea. unfold tiny_amounts. apply in_map_iff.
  exists (Pos.to_nat ma). split.
  - rewrite Pos2Nat.id, <- Ea. apply SF2Prim_Prim2SF.
  - apply in_seq. change (2 ^ 8) with 256 in Hma. lia.
Qed.

Lemma tiny_amounts_table : forallb below_from_smallest tiny_amounts = true.
Proof. vm_compute. reflexivity. Qed.

(** An amount of at least [2 ^ 8] units is above the two smallest
    amounts. *)
Lemma above_smallest (amount small : float) (ma ms : positive) (ea : Z) :
  Prim2SF amount = S754_finite false ma ea ->
  Prim2SF small = S754_finite false ms (-1074) ->
  Zpos ms < 2 ^ 8 <= Zpos ma ->
  (small <=? amount)%float = true.
Proof.
  intros Ea Es [Hms Hma].
  pose proof (Prim2SF_valid amount) as Hva. rewrite Ea in Hva.
  cbn [valid_binary bounded] in Hva. apply andb_true_iff in Hva as [Hcan _].
  pose proof (Prim2SF_valid small) as Hvs. rewrite Es in Hvs.
  cbn [valid_binary bounded] in Hvs. apply andb_true_iff in Hvs as [Hcs _].
  pose proof (canonical_bounds _ _ Hcan) as (Hea & _ & _).
  rewrite leb_spec, Ea, Es. unfold SFleb.
  rewrite (compare_pos ms ma (-1074) ea Hcs Hcan).
  assert (Hlt : val (Zpos ms) (-1074) < val (Zpos ma) ea).
  { unfold val. change (2 ^ (-1074 + 1074)) with 1.
    pose proof (pow2_pos (ea + 1074) ltac:(lia)). nia. }
  apply Z.compare_lt_iff in Hlt. now rewrite Hlt.
Qed.
(** ** Fee model *)

Example fee_card_100 :
  calculate_fee Config.defaults 100 "credit_card" = 3.1999999999999997%float.
Proof. reflexivity. Qed.

Example expected_card_100 :
  calculate_expected_settlement Config.defaults 100 "credit_card" = 96.8%float.
Proof. reflexivity. Qed.

Example expected_bank_100 :
  calculate_expected_settlement Config.defaults 100 "bank_transfer" = 98.5%float.
Proof. reflexivity. Qed.

Example timing_bank : get_settlement_timing "bank_transfer" = (5, 7, 10).
Proof. vm_compute. reflexivity. Qed.

(** C7: [calculate_fee] charges the card schedule
    [amount * card_percent / 100 + card_fixed] for credit and debit cards,
    [amount * bank_percent / 100] for bank transfers,
    [amount * voucher_percent / 100] for cash vouchers, and the card
    schedule again for every other payment-method string; the default
    rates are 2.9 % + 0.30, 1.5 % and 3.5 %.  It holds for every amount,
    the non-negative ones included. *)
Theorem calculate_fee_schedule (cfg : Config.t) (amount : float) (payment_method : string) :
  (payment_method = "credit_card" \/ payment_method = "debit_card" ->
   calculate_fee cfg amount payment_method
   = (amount * CARD_FEE_PERCENT cfg / 100 + CARD_FEE_FIXED cfg)%float)
  /\ (payment_method = "bank_transfer" ->
      calculate_fee cfg amount payment_method
      = (amount * BANK_FEE_PERCENT cfg / 100)%float)
  /\ (payment_method = "cash_voucher" ->
      calculate_fee cfg amount payment_method
      = (amount * VOUCHER_FEE_PERCENT cfg / 100)%float)
  /\ (payment_method <> "credit_card" -> payment_method <> "debit_card" ->
      payment_method <> "bank_transfer" -> payment_method <> "cash_voucher" ->
      calculate_fee cfg amount payment_method
      = (amount * CARD_FEE_PERCENT cfg / 100 + CARD_FEE_FIXED cfg)%float)
  /\ (CARD_FEE_PERCENT Config.defaults = 2.9%float
      /\ CARD_FEE_FIXED Config.defaults = 0.30%float
      /\ BANK_FEE_PERCENT Config.defaults = 1.5%float
      /\ VOUCHER_FEE_PERCENT Config.defaults = 3.5%float).
Proof.
  unfold calculate_fee, calculate_card_fee, calculate_bank_fee, calculate_voucher_fee.
  repeat split.
  - intros [-> | ->]; reflexivity.
  - intros ->; reflexivity.
  - intros ->; reflexivity.
  - intros H1 H2 H3 H4.
    apply String.eqb_neq in H1, H2, H3, H4.
    now rewrite H1, H2, H3, H4.
Qed.

(** ** Status classifier *)

Lemma classify_status_first_match (row : Timed) :
  classify_status row = decision_table row.
Proof.
  unfold classify_status, decision_table, status_rules, first_match,
    lifecycle_in, no_settlement_attached, exceeds_both_tolerances, existsb,
    discrepancy_threshold_amount, discrepancy_threshold_percent.
  rewrite !orb_false_r.
  destruct (String.eqb (status row) "authorized"
            || String.eqb (status row) "declined"); [reflexivity|].
  destruct (settlement_id row) as [sid|]; cbn [andb].
  - destruct (is_nan (discrepancy_amount row)) eqn:Hnan; cbn [negb andb].
    + now rewrite (ltb_abs_nan _ _ Hnan).
    + reflexivity.
  - destruct (String.eqb (status row) "captured"); [reflexivity|].
    destruct (String.eqb (status row) "refunded"
              || String.eqb (status row) "chargedback"); reflexivity.
Qed.


(** ** Matcher *)

Section Matcher.
Variable settlements_df : list Settlement.

Lemma merge_row_base (t : Expected) (r : Matched) :
  In r (merge_row settlements_df t) -> m_row r = t.
Proof.
  unfold merge_row.
  destruct (List.filter _ settlements_df) as [|s ss].
  - intros [<- | []]. reflexivity.
  - intros Hin. apply in_map_iff in Hin as (s' & <- & _). reflexivity.
Qed.

(** The rows of one transaction: the transaction alone when no
    settlement references it, otherwise one row per settlement that
    does. *)
Lemma merge_row_cases (t : Expected) (r : Matched) :
  In r (merge_row settlements_df t)
  <-> (r = unmatched t
       /\ forall s, In s settlements_df ->
                    s_transaction_id s <> transaction_id t)
      \/ exists s, In s settlements_df
                   /\ s_transaction_id s = transaction_id t
                   /\ r = attach t s.
Proof.
  unfold merge_row.
  destruct (List.filter _ settlements_df) as [|s0 ss] eqn:Hf.
  - split.
    + intros [<- | []]. left. split; [reflexivity|].
      intros s Hs Href.
      assert (Hin : In s (List.filter (references (transaction_id t))
                                      settlements_df))
        by (apply filter_In; split; [exact Hs|now apply String.eqb_eq]).
      rewrite Hf in Hin. destruct Hin.
    + intros [[-> _] | (s & Hs & Href & _)]; [now left|].
      assert (Hin : In s (List.filter (references (transaction_id t))
                                      settlements_df))
        by (apply filter_In; split; [exact Hs|now apply String.eqb_eq]).
      rewrite Hf in Hin. destruct Hin.
  - rewrite <- Hf. split.
    + intros Hin. apply in_map_iff in Hin as (s & <- & Hs).
      apply filter_In in Hs as [Hs Href]. apply String.eqb_eq in Href.
      right. now exists s.
    + intros [[_ Hnone] | (s & Hs & Href & ->)].
      * assert (Hin : In s0 (List.filter (references (transaction_id t))
                                         settlements_df))
          by (rewrite Hf; now left).
        apply filter_In in Hin as [Hin Href]. apply String.eqb_eq in Href.
        now apply Hnone in Hin.
      * apply in_map, filter_In. split; [exact Hs|now apply String.eqb_eq].
Qed.

Lemma merge_row_unreferenced (t : Expected) :
  (forall s, In s settlements_df -> s_transaction_id s <> transaction_id t) ->
  merge_row settlements_df t = [unmatched t].
Proof.
  intros Hnone. unfold merge_row.
  destruct (List.filter _ settlements_df) as [|s0 ss] eqn:Hf; [reflexivity|].
  assert (Hin : In s0 (List.filter (references (transaction_id t)) settlements_df))
    by (rewrite Hf; now left).
  apply filter_In in Hin as [Hin Href].
  apply String.eqb_eq in Href. now apply Hnone in Hin.
Qed.

Lemma merge_row_one (t : Expected) :
  (length (List.filter (references (transaction_id t)) settlements_df) <= 1)%nat ->
  exists r, merge_row settlements_df t = [r].
Proof.
  unfold merge_row.
  destruct (List.filter _ settlements_df) as [|s0 [|s1 ss]]; cbn; intros Hlen.
  - now eexists.
  - now eexists.
  - lia.
Qed.

Lemma merge_row_length (t : Expected) :
  length (merge_row settlements_df t)
  = Nat.max 1 (length (List.filter (references (transaction_id t)) settlements_df)).
Proof.
  unfold merge_row.
  destruct (List.filter _ settlements_df) as [|s0 ss]; [reflexivity|].
  rewrite length_map. cbn [length]. lia.
Qed.

Lemma merge_row_not_nil (t : Expected) : merge_row settlements_df t <> [].
Proof.
  intros E. pose proof (merge_row_length t) as H. rewrite E in H.
  cbn [length] in H. lia.
Qed.

Lemma match_settlements_exact_rows (transactions_df : list Expected) (r : Matched) :
  In r (match_settlements_exact transactions_df settlements_df) ->
  In (m_row r) transactions_df /\ In r (merge_row settlements_df (m_row r)).
Proof.
  unfold match_settlements_exact. intros Hin.
  apply in_flat_map in Hin as (t & Ht & Hr).
  now rewrite (merge_row_base _ _ Hr).
Qed.

End Matcher.

Lemma match_settlements_exact_keeps_left
    (transactions_df : list Expected) (settlements_df : list Settlement) :
  at_most_one_settlement_per_transaction settlements_df ->
  map m_row (match_settlements_exact transactions_df settlements_df)
  = transactions_df.
Proof.
  intros Hone. unfold match_settlements_exact.
  induction transactions_df as [|t ts IH]; [reflexivity|].
  cbn [flat_map]. rewrite map_app, IH.
  destruct (merge_row_one settlements_df t (Hone _)) as [r Hr].
  rewrite Hr. cbn [map app]. f_equal.
  apply (merge_row_base settlements_df). rewrite Hr. now left.
Qed.

Lemma match_settlements_exact_unreferenced
    (transactions_df : list Expected) (settlements_df : list Settlement) :
  Forall (fun r : Matched =>
            (forall s, In s settlements_df ->
                       s_transaction_id s <> transaction_id r) ->
            r = unmatched (m_row r))
         (match_settlements_exact transactions_df settlements_df).
Proof.
  apply List.Forall_forall. intros r Hin Hnone.
  apply match_settlements_exact_rows in Hin as [_ Hin].
  rewrite (merge_row_unreferenced settlements_df _ Hnone) in Hin.
  destruct Hin as [<- | []]. reflexivity.
Qed.

(** C2: when at most one settlement references any transaction identifier,
    the matcher returns exactly one record per input transaction, in the
    input order and carrying that transaction (so the same identifier), and
    a record whose identifier no settlement references has its settlement
    identifier, date and amount missing. *)
Theorem match_settlements_exact_one_per_transaction
    (transactions_df : list Expected) (settlements_df : list Settlement) :
  at_most_one_settlement_per_transaction settlements_df ->
  map m_row (match_settlements_exact transactions_df settlements_df)
  = transactions_df
  /\ map (fun r : Matched => transaction_id r)
         (match_settlements_exact transactions_df settlements_df)
     = map (fun t : Expected => transaction_id t) transactions_df
  /\ length (match_settlements_exact transactions_df settlements_df)
     = length transactions_df
  /\ Forall (fun r : Matched =>
               (forall s, In s settlements_df ->
                          s_transaction_id s <> transaction_id r) ->
               settlement_id r = None
               /\ settlement_date r = None
               /\ is_nan (settled_amount r) = true)
            (match_settlements_exact transactions_df settlements_df).
Proof.
  intros Hone.
  pose proof (match_settlements_exact_keeps_left transactions_df settlements_df Hone)
    as Hrows.
  repeat split.
  - exact Hrows.
  - rewrite <- Hrows at 2. now rewrite map_map.
  - rewrite <- Hrows at 2. now rewrite length_map.
  - eapply List.Forall_impl; [|apply match_settlements_exact_unreferenced].
    cbn beta. intros r Hr Hnone. rewrite (Hr Hnone). now cbn.
Qed.

Lemma one_settlement_at_most_one (s : Settlement) :
  at_most_one_settlement_per_transaction [s].
Proof.
  intros tid. cbn. destruct (references tid s); cbn; lia.
Defined.

Lemma match_settlements_exact_one_per_transaction_witness :
  map (fun r : Matched => transaction_id r)
      (match_settlements_exact
         (calculate_expected_amounts Config.defaults [txn_001; txn_002]) [set_001])
  = ["TXN_001"; "TXN_002"]
  /\ map settlement_id
         (match_settlements_exact
            (calculate_expected_amounts Config.defaults [txn_001; txn_002]) [set_001])
     = [Some "SET_001"; None].
Proof.
  split.
  - apply (match_settlements_exact_one_per_transaction
             (calculate_expected_amounts Config.defaults [txn_001; txn_002])
             [set_001] (one_settlement_at_most_one set_001)).
  - reflexivity.
Defined.

(** The join is a left join with fan-out: its rows are exactly, for each
    transaction, the transaction with missing settlement columns when no
    settlement references its identifier, and otherwise the transaction
    with each settlement that references it. *)
Lemma match_settlements_exact_cases
    (transactions_df : list Expected) (settlements_df : list Settlement)
    (r : Matched) :
  In r (match_settlements_exact transactions_df settlements_df)
  <-> exists t, In t transactions_df
                /\ ((r = unmatched t
                     /\ forall s, In s settlements_df ->
                                  s_transaction_id s <> transaction_id t)
                    \/ exists s, In s settlements_df
                                 /\ s_transaction_id s = transaction_id t
                                 /\ r = attach t s).
Proof.
  unfold match_settlements_exact. rewrite in_flat_map.
  split; intros (t & Ht & H); exists t; (split; [exact Ht|]);
    now apply merge_row_cases.
Qed.

Lemma match_settlements_exact_length
    (transactions_df : list Expected) (settlements_df : list Settlement) :
  length (match_settlements_exact transactions_df settlements_df)
  = list_sum (map (fun t : Expected =>
                     Nat.max 1 (length (List.filter (references (transaction_id t))
                                                    settlements_df)))
                  transactions_df).
Proof.
  unfold match_settlements_exact.
  induction transactions_df as [|t ts IH]; [reflexivity|].
  cbn [flat_map map]. change (list_sum (?x :: ?l)) with (x + list_sum l)%nat.
  now rewrite List.length_app, IH, merge_row_length.
Qed.

Lemma list_sum_ge_length {A : Type} (f : A -> nat) (l : list A) :
  (forall a, 1 <= f a)%nat -> (length l <= list_sum (map f l))%nat.
Proof.
  intros Hf. induction l as [|a l IH]; [reflexivity|].
  cbn [map length]. change (list_sum (?x :: ?l)) with (x + list_sum l)%nat.
  specialize (Hf a). lia.
Qed.

(** ** The stages, row by row *)

Lemma traverse_spec {A B : Type} (f : A -> result B) (g : A -> B)
    (fits : A -> bool) (e : exception) (l : list A) :
  (forall a, f a = if fits a then Ok (g a) else Raise e) ->
  traverse f l = if forallb fits l then Ok (map g l) else Raise e.
Proof.
  intros Hf. induction l as [|a l IH]; [reflexivity|].
  cbn [traverse forallb map]. rewrite Hf, IH.
  destruct (fits a); [|reflexivity].
  now destruct (forallb fits l).
Qed.

Lemma forallb_map {A B : Type} (f : A -> B) (p : B -> bool) (l : list A) :
  forallb p (map f l) = forallb (fun a => p (f a)) l.
Proof. induction l as [|a l IH]; [reflexivity|]. cbn. now rewrite IH. Qed.

(** The later stages keep the rows they are given, in order. *)
Lemma calculate_discrepancies_map (df : list Matched) :
  calculate_discrepancies df = map discrepancy_row df.
Proof. now destruct df. Qed.

Lemma calculate_discrepancies_rows (df : list Matched) :
  map d_row (calculate_discrepancies df) = df.
Proof.
  rewrite calculate_discrepancies_map, map_map.
  cbn [discrepancy_row d_row]. apply map_id.
Qed.

Lemma classify_settlement_status_rows (df : list Timed) :
  map c_row (classify_settlement_status df) = df.
Proof.
  unfold classify_settlement_status. rewrite map_map. cbn [c_row]. apply map_id.
Qed.

Lemma timed_rows (df : list Discrepancy) : map t_row (map timed df) = df.
Proof. rewrite map_map. cbn [timed t_row]. apply map_id. Qed.

(** [timing_row] raises exactly when the difference of the two dates is
    not a 64-bit integer, and returns [timed] otherwise. *)
Lemma timing_row_spec (row : Discrepancy) :
  timing_row row
  = if span_fits (settlement_date row) (timestamp row)
    then Ok (timed row) else Raise OverflowError.
Proof.
  unfold timing_row, timed, span_fits, sub_datetime, whole_days.
  destruct (settlement_date row) as [date|]; [|reflexivity].
  set (delta := date - timestamp row).
  destruct (Z.leb_spec int64_min delta), (Z.leb_spec delta int64_max),
    (Z.ltb_spec delta int64_min), (Z.ltb_spec int64_max delta);
    try lia; cbn [orb andb bind]; try reflexivity.
  destruct (delta =? int64_min); reflexivity.
Qed.

Lemma detect_timing_anomalies_spec (df : list Discrepancy) :
  detect_timing_anomalies df
  = if forallb (fun row : Discrepancy =>
                  span_fits (settlement_date row) (timestamp row)) df
    then Ok (map timed df) else Raise OverflowError.
Proof.
  unfold detect_timing_anomalies. destruct df as [|row df]; [reflexivity|].
  apply traverse_spec, timing_row_spec.
Qed.

Lemma calculate_expected_settlement_date_spec (row : Classified) :
  calculate_expected_settlement_date row
  = if expected_date_fits row
    then Ok (midpoint_date (payment_method row) (timestamp row))
    else Raise OutOfBoundsDatetime.
Proof.
  unfold calculate_expected_settlement_date, expected_date_fits, midpoint_date.
  destruct (get_settlement_timing (payment_method row)) as [[mn mx] th].
  now destruct (Z.leb_spec (timestamp row + (mn + mx) * (ns_per_day / 2)) int64_max),
    (Z.ltb_spec int64_max (timestamp row + (mn + mx) * (ns_per_day / 2)));
    try lia.
Qed.

Lemma forallb_pointwise {A : Type} (p q : A -> bool) (l : list A) :
  (forall a, p a = q a) -> forallb p l = forallb q l.
Proof.
  intros H. induction l as [|a l IH]; [reflexivity|].
  cbn [forallb]. now rewrite H, IH.
Qed.

(** The date conditions of a batch, read on the rows of the join. *)
Lemma forallb_flat_map {A B : Type} (f : A -> list B) (p : B -> bool) (l : list A) :
  forallb p (flat_map f l) = forallb (fun a => forallb p (f a)) l.
Proof.
  induction l as [|a l IH]; [reflexivity|].
  cbn [flat_map forallb]. now rewrite forallb_app, IH.
Qed.

Lemma forallb_filter_implies {A : Type} (p q : A -> bool) (l : list A) :
  forallb q (List.filter p l) = forallb (fun a => negb (p a) || q a) l.
Proof.
  induction l as [|a l IH]; [reflexivity|].
  cbn [List.filter forallb]. destruct (p a); cbn [forallb negb orb]; now rewrite IH.
Qed.

Lemma merge_row_spans_fit (settlements_df : list Settlement) (t : Expected) :
  forallb (fun row : Matched => span_fits (settlement_date row) (timestamp row))
          (merge_row settlements_df t)
  = forallb (fun s => negb (references (transaction_id t) s)
                      || span_fits (s_settlement_date s) (timestamp t))
            settlements_df.
Proof.
  rewrite <- forallb_filter_implies. unfold merge_row.
  destruct (List.filter _ settlements_df) as [|s0 ss]; [reflexivity|].
  now rewrite forallb_map.
Qed.

Lemma merge_row_expected_dates_fit (settlements_df : list Settlement) (t : Expected) :
  forallb (fun row : Matched => expected_date_fits row) (merge_row settlements_df t)
  = expected_date_fits t.
Proof.
  unfold merge_row.
  destruct (List.filter _ settlements_df) as [|s0 ss].
  - cbn. apply andb_true_r.
  - rewrite forallb_map. cbn [attach m_row forallb].
    destruct (expected_date_fits t); cbn [andb]; [|reflexivity].
    induction ss as [|s ss IH]; [reflexivity|]. cbn [forallb]. exact IH.
Qed.

Lemma discrepancy_count_ok (df : list Discrepancy) :
  df <> [] -> exists n, discrepancy_count df = Ok n.
Proof. destruct df as [|row df]; [congruence|]. intros _. now eexists. Qed.

Lemma matched_spans_fit (cfg : Config.t)
    (transactions_df : list Transaction) (settlements_df : list Settlement) :
  forallb (fun row : Matched => span_fits (settlement_date row) (timestamp row))
          (match_settlements_exact
             (calculate_expected_amounts cfg transactions_df) settlements_df)
  = spans_fit transactions_df settlements_df.
Proof.
  unfold match_settlements_exact, calculate_expected_amounts, spans_fit.
  rewrite forallb_flat_map, forallb_map.
  apply forallb_pointwise. intros t. apply merge_row_spans_fit.
Qed.

Lemma matched_expected_dates_fit (cfg : Config.t)
    (transactions_df : list Transaction) (settlements_df : list Settlement) :
  forallb (fun row : Matched => expected_date_fits row)
          (match_settlements_exact
             (calculate_expected_amounts cfg transactions_df) settlements_df)
  = expected_dates_fit transactions_df.
Proof.
  unfold match_settlements_exact, calculate_expected_amounts, expected_dates_fit.
  rewrite forallb_flat_map, forallb_map.
  apply forallb_pointwise. intros t. apply merge_row_expected_dates_fit.
Qed.

Lemma matched_nil (cfg : Config.t)
    (transactions_df : list Transaction) (settlements_df : list Settlement) :
  match_settlements_exact
    (calculate_expected_amounts cfg transactions_df) settlements_df = []
  <-> transactions_df = [].
Proof.
  unfold match_settlements_exact, calculate_expected_amounts.
  destruct transactions_df as [|t ts]; [tauto|].
  cbn [map flat_map]. split; [|discriminate].
  intros E. apply app_eq_nil in E as [E _].
  now apply merge_row_not_nil in E.
Qed.

(** What [reconcile_transactions] does with a batch: it raises
    [KeyError] on an empty transaction frame, [OverflowError] when a
    settlement date is out of range of its transaction's timestamp,
    [OutOfBoundsDatetime] when an expected settlement date is past the
    largest timestamp, and otherwise returns one record per row of the
    join and the ghosts. *)
Lemma reconcile_transactions_run (cfg : Config.t)
    (transactions_df : list Transaction) (settlements_df : list Settlement) :
  reconcile_transactions cfg transactions_df settlements_df
  = match transactions_df with
    | [] => Raise KeyError
    | _ =>
        if spans_fit transactions_df settlements_df
        then if expected_dates_fit transactions_df
             then Ok (map reconcile_row
                          (match_settlements_exact
                             (calculate_expected_amounts cfg transactions_df)
                             settlements_df),
                      identify_ghost_settlements
                        (classify_settlement_status
                           (map timed
                              (map discrepancy_row
                                 (match_settlements_exact
                                    (calculate_expected_amounts cfg transactions_df)
                                    settlements_df))))
                        settlements_df)
             else Raise OutOfBoundsDatetime
        else Raise OverflowError
    end.
Proof.
  unfold reconcile_transactions.
  rewrite calculate_discrepancies_map.
  rewrite <- (matched_spans_fit cfg), <- (matched_expected_dates_fit cfg _ settlements_df).
  pose proof (matched_nil cfg transactions_df settlements_df) as Hnil.
  set (matched := match_settlements_exact
                    (calculate_expected_amounts cfg transactions_df)
                    settlements_df) in *.
  destruct transactions_df as [|t ts].
  - rewrite (proj2 Hnil eq_refl). reflexivity.
  - assert (Hne : matched <> []) by (rewrite Hnil; discriminate).
    destruct (discrepancy_count_ok (map discrepancy_row matched)) as [n ->].
    { intros E. apply map_eq_nil in E. contradiction. }
    cbn [bind].
    rewrite detect_timing_anomalies_spec, forallb_map.
    cbn [discrepancy_row d_row].
    destruct (forallb _ matched); [|reflexivity]. cbn [bind].
    rewrite (traverse_spec _
               (fun row : Classified =>
                  {| r_row := row;
                     expected_settlement_date :=
                       midpoint_date (payment_method row) (timestamp row) |})
               (fun row : Classified => expected_date_fits row)
               OutOfBoundsDatetime).
    + unfold classify_settlement_status at 1. rewrite !forallb_map.
      cbn [c_row timed t_row discrepancy_row d_row].
      destruct (forallb _ matched); [|reflexivity]. cbn [bind].
      unfold classify_settlement_status at 1. rewrite !map_map. reflexivity.
    + intros row. rewrite calculate_expected_settlement_date_spec.
      now destruct (expected_date_fits row).
Qed.

(** A batch the engine returns on: the transaction frame is not empty
    and the dates are in range. *)
Lemma batch_ok_run (cfg : Config.t)
    (transactions_df : list Transaction) (settlements_df : list Settlement) :
  batch_ok transactions_df settlements_df = true ->
  reconcile_transactions cfg transactions_df settlements_df
  = Ok (map reconcile_row
            (match_settlements_exact
               (calculate_expected_amounts cfg transactions_df) settlements_df),
        identify_ghost_settlements
          (classify_settlement_status
             (map timed
                (map discrepancy_row
                   (match_settlements_exact
                      (calculate_expected_amounts cfg transactions_df)
                      settlements_df))))
          settlements_df).
Proof.
  intros Hok. rewrite reconcile_transactions_run. unfold batch_ok in Hok.
  destruct transactions_df as [|t ts]; [discriminate|].
  apply andb_true_iff in Hok as [-> ->]. reflexivity.
Qed.

(** ** Ghost settlement detector *)


Lemma elem_of_all_settlement_ids (settlements_df : list Settlement)
    (x : option string) :
  x ∈ all_settlement_ids settlements_df
  <-> exists s, In s settlements_df /\ s_settlement_id s = x.
Proof.
  unfold all_settlement_ids.
  rewrite elem_of_list_to_set, list_elem_of_In, in_map_iff.
  split; intros (s & H1 & H2); exists s; auto.
Qed.

Lemma elem_of_matched_settlement_ids (reconciled_df : list Classified)
    (x : option string) :
  x ∈ matched_settlement_ids reconciled_df
  <-> notna x = true
      /\ exists r : Classified, In r reconciled_df /\ settlement_id r = x.
Proof.
  unfold matched_settlement_ids.
  rewrite elem_of_list_to_set, list_elem_of_In, filter_In, in_map_iff.
  split.
  - intros [(r & H1 & H2) Hx]. split; [exact Hx|]. now exists r.
  - intros [Hx (r & H1 & H2)]. split; [|exact Hx]. now exists r.
Qed.

Lemma has_transaction_spec (transactions_df : list Transaction) (s : Settlement) :
  has_transaction transactions_df s = true
  <-> exists t, In t transactions_df /\ transaction_id t = s_transaction_id s.
Proof.
  unfold has_transaction. rewrite existsb_exists.
  split; intros (t & Ht & E); exists t; (split; [exact Ht|]);
    now apply String.eqb_eq.
Qed.

Lemma identify_ghost_settlements_tagged
    (reconciled_df : list Classified) (settlements_df : list Settlement) :
  Forall (fun g => anomaly_type g = "ghost_settlement")
         (identify_ghost_settlements reconciled_df settlements_df).
Proof.
  unfold identify_ghost_settlements.
  apply List.Forall_forall. intros g Hg.
  apply in_map_iff in Hg as (s & <- & _). reflexivity.
Qed.

(** A settlement of the frame is reported exactly when its identifier is
    not among the matched ones; one without identifier always is. *)
Lemma identify_ghost_settlements_spec
    (reconciled_df : list Classified) (settlements_df : list Settlement) :
  identify_ghost_settlements reconciled_df settlements_df
  = map ghost_of
        (List.filter
           (fun s => bool_decide
                       (s_settlement_id s ∉ matched_settlement_ids reconciled_df))
           settlements_df).
Proof.
  unfold identify_ghost_settlements.
  change (fun s => {| g_settlement := s; anomaly_type := "ghost_settlement" |})
    with ghost_of.
  f_equal. apply filter_ext_in. intros s Hs.
  apply eq_true_iff_eq. rewrite !bool_decide_eq_true, elem_of_difference.
  split; [tauto|]. intros Hnot. split; [|exact Hnot].
  apply elem_of_all_settlement_ids. now exists s.
Qed.

Section Engine.
Variable cfg : Config.t.
Variable transactions_df : list Transaction.
Variable settlements_df : list Settlement.

(** The frame handed to the ghost detector in [reconcile_transactions]. *)
Let classified : list Classified :=
  classify_settlement_status
    (map timed
       (map discrepancy_row
          (match_settlements_exact
             (calculate_expected_amounts cfg transactions_df) settlements_df))).

Lemma classified_matched (r : Classified) :
  In r classified ->
  In (r : Matched)
     (match_settlements_exact
        (calculate_expected_amounts cfg transactions_df) settlements_df).
Proof.
  unfold classified, classify_settlement_status. rewrite !map_map.
  intros Hin. apply in_map_iff in Hin as (m & <- & Hm). exact Hm.
Qed.

Lemma matched_classified (m : Matched) :
  In m (match_settlements_exact
          (calculate_expected_amounts cfg transactions_df) settlements_df) ->
  exists r : Classified, In r classified /\ (r : Matched) = m.
Proof.
  intros Hm. unfold classified, classify_settlement_status. rewrite !map_map.
  eexists. split; [apply in_map, Hm|reflexivity].
Qed.

(** The matched identifiers are those of the settlements that have an
    identifier and reference a transaction of the batch. *)
Lemma matched_settlement_ids_spec (sid : string) :
  Some sid ∈ matched_settlement_ids classified
  <-> exists s, In s settlements_df
                /\ has_transaction transactions_df s = true
                /\ s_settlement_id s = Some sid.
Proof.
  rewrite elem_of_matched_settlement_ids. split.
  - intros (_ & r & Hr & Hsid).
    apply classified_matched, match_settlements_exact_cases in Hr
      as (t & Ht & [[E _] | (s & Hs & Href & E)]).
    + change (settlement_id r) with (settlement_id (r : Matched)) in Hsid.
      rewrite E in Hsid. discriminate.
    + exists s. repeat split; trivial.
      * apply has_transaction_spec.
        unfold calculate_expected_amounts in Ht.
        apply in_map_iff in Ht as (t' & Et & Ht').
        exists t'. split; [exact Ht'|]. rewrite Href, <- Et. reflexivity.
      * change (settlement_id r) with (settlement_id (r : Matched)) in Hsid.
        rewrite E in Hsid. exact Hsid.
  - intros (s & Hs & Htxn & Hsid). split; [reflexivity|].
    apply has_transaction_spec in Htxn as (t & Ht & Href).
    destruct (matched_classified
                (attach {| e_txn := t;
                           expected_settled_amount :=
                             calculate_expected_settlement cfg (amount t)
                               (payment_method t) |} s))
      as (r & Hr & E).
    { apply match_settlements_exact_cases. eexists. split.
      - unfold calculate_expected_amounts. apply in_map, Ht.
      - right. exists s. repeat split; trivial. now symmetry. }
    exists r. split; [exact Hr|].
    change (settlement_id r) with (settlement_id (r : Matched)).
    now rewrite E.
Qed.

Lemma missing_id_not_matched :
  None ∉ matched_settlement_ids classified.
Proof. rewrite elem_of_matched_settlement_ids. intros [H _]. discriminate. Qed.

Lemma attached_settlement_ids_spec (sid : string) :
  sid ∈ attached_settlement_ids (map reconcile_row
          (match_settlements_exact
             (calculate_expected_amounts cfg transactions_df) settlements_df))
  <-> Some sid ∈ matched_settlement_ids classified.
Proof.
  unfold attached_settlement_ids.
  rewrite elem_of_list_to_set, list_elem_of_omap, elem_of_matched_settlement_ids.
  split.
  - intros (r & Hr & Hsid). split; [reflexivity|].
    apply list_elem_of_In, in_map_iff in Hr as (m & <- & Hm).
    destruct (matched_classified m Hm) as (c & Hc & E).
    exists c. split; [exact Hc|].
    change (settlement_id c) with (settlement_id (c : Matched)).
    rewrite E. exact Hsid.
  - intros (_ & c & Hc & Hsid).
    exists (reconcile_row c). split.
    + apply list_elem_of_In, in_map, classified_matched, Hc.
    + exact Hsid.
Qed.

Lemma ghost_settlement_ids_spec (sid : string) :
  sid ∈ ghost_settlement_ids (identify_ghost_settlements classified settlements_df)
  <-> sid ∈ settlement_ids settlements_df
      /\ Some sid ∉ matched_settlement_ids classified.
Proof.
  unfold ghost_settlement_ids, settlement_ids.
  rewrite identify_ghost_settlements_spec.
  rewrite !elem_of_list_to_set, !list_elem_of_omap. split.
  - intros (g & Hg & Hsid).
    apply list_elem_of_In, in_map_iff in Hg as (s & <- & Hs).
    apply filter_In in Hs as [Hs Hnot]. apply bool_decide_eq_true in Hnot.
    cbn [ghost_of g_settlement] in Hsid. rewrite Hsid in Hnot.
    split; [|exact Hnot]. exists s. split; [now apply list_elem_of_In|exact Hsid].
  - intros [(s & Hs & Hsid) Hnot].
    exists (ghost_of s). split; [|exact Hsid].
    apply list_elem_of_In, in_map, filter_In. split; [now apply list_elem_of_In|].
    apply bool_decide_eq_true. now rewrite Hsid.
Qed.

Lemma matched_subseteq_settlement_ids (sid : string) :
  Some sid ∈ matched_settlement_ids classified ->
  sid ∈ settlement_ids settlements_df.
Proof.
  intros H. apply matched_settlement_ids_spec in H as (s & Hs & _ & Hsid).
  unfold settlement_ids. rewrite elem_of_list_to_set, list_elem_of_omap.
  exists s. split; [now apply list_elem_of_In|exact Hsid].
Qed.

(** C3: on every batch the engine returns on, the settlement identifiers
    of the reconciled records and the identifiers of the settlements that
    [identify_ghost_settlements] reports are disjoint, their union is the
    set of all identifiers of the settlement frame, and every ghost record
    carries [anomaly_type = ghost_settlement]; a settlement row that has
    no identifier is reported as a ghost. *)
Theorem ghost_settlements_partition :
  batch_ok transactions_df settlements_df = true ->
  exists recs ghosts,
    reconcile_transactions cfg transactions_df settlements_df = Ok (recs, ghosts)
    /\ attached_settlement_ids recs ## ghost_settlement_ids ghosts
    /\ attached_settlement_ids recs ∪ ghost_settlement_ids ghosts
       = settlement_ids settlements_df
    /\ Forall (fun g => anomaly_type g = "ghost_settlement") ghosts
    /\ Forall (fun s => s_settlement_id s = None -> In (ghost_of s) ghosts)
              settlements_df.
Proof.
  intros Hok. rewrite (batch_ok_run cfg _ _ Hok). fold classified.
  do 2 eexists. split; [reflexivity|]. repeat split.
  - intros sid Hin Hghost.
    apply attached_settlement_ids_spec in Hin.
    apply ghost_settlement_ids_spec in Hghost as [_ Hnot]. now apply Hnot.
  - apply set_eq. intros sid.
    rewrite elem_of_union, attached_settlement_ids_spec, ghost_settlement_ids_spec.
    pose proof (matched_subseteq_settlement_ids sid) as Hsub.
    destruct (decide (Some sid ∈ matched_settlement_ids classified)); tauto.
  - apply identify_ghost_settlements_tagged.
  - apply List.Forall_forall. intros s Hs Hnone.
    rewrite identify_ghost_settlements_spec.
    apply in_map, filter_In. split; [exact Hs|].
    apply bool_decide_eq_true. rewrite Hnone. apply missing_id_not_matched.
Qed.

End Engine.

Lemma ghost_settlements_partition_witness :
  exists recs ghosts,
    reconcile_transactions Config.defaults [txn_001; txn_002]
      [set_001; set_stray; set_no_id]
    = Ok (recs, ghosts)
    /\ attached_settlement_ids recs = {["SET_001"]}
    /\ ghost_settlement_ids ghosts = {["SET_999"]}
    /\ map (fun g : GhostSettlement => s_settlement_id g) ghosts
       = [Some "SET_999"; None].
Proof.
  destruct (ghost_settlements_partition Config.defaults [txn_001; txn_002]
              [set_001; set_stray; set_no_id] eq_refl)
    as (recs & ghosts & Hrun & _).
  exists recs, ghosts. split; [exact Hrun|].
  vm_compute in Hrun. injection Hrun as <- <-.
  repeat split; vm_compute; reflexivity.
Defined.

(** ** Discrepancy calculator *)

Example scenario_A_discrepancy :
  map (fun r : Discrepancy =>
         (expected_settled_amount r, discrepancy_amount r, discrepancy_percent r))
      (calculate_discrepancies
         (match_settlements_exact
            (calculate_expected_amounts Config.defaults [txn_001]) [set_001]))
  = [(96.8, 0, 0)%float].
Proof. reflexivity. Qed.

(** C4: for every record whose settled amount is present,
    [calculate_discrepancies] sets [discrepancy_amount] to
    [expected_settled_amount - actual_settled_amount] and
    [discrepancy_percent] to
    [discrepancy_amount / expected_settled_amount * 100], the binary64
    operations as they are, with no rounding step; for a record whose
    settled amount is missing both are missing, and so they are for every
    record the matcher left without a settlement: a record whose
    transaction no settlement references, and, when every settlement row
    has an identifier, a record without settlement identifier.  The rows
    are kept. *)
Theorem calculate_discrepancies_contract
    (reconciled_df : list Matched)
    (transactions_df : list Expected) (settlements_df : list Settlement) :
  map d_row (calculate_discrepancies reconciled_df) = reconciled_df
  /\ Forall (fun r : Discrepancy =>
               actual_settled_amount r = settled_amount r
               /\ (is_nan (settled_amount r) = false ->
                   discrepancy_amount r
                   = (expected_settled_amount r - actual_settled_amount r)%float
                   /\ discrepancy_percent r
                      = (discrepancy_amount r / expected_settled_amount r * 100)%float)
               /\ (is_nan (settled_amount r) = true ->
                   is_nan (discrepancy_amount r) = true
                   /\ is_nan (discrepancy_percent r) = true))
            (calculate_discrepancies reconciled_df)
  /\ Forall (fun r : Discrepancy =>
               (forall s, In s settlements_df ->
                          s_transaction_id s <> transaction_id r) ->
               settlement_id r = None
               /\ is_nan (discrepancy_amount r) = true
               /\ is_nan (discrepancy_percent r) = true)
            (calculate_discrepancies
               (match_settlements_exact transactions_df settlements_df))
  /\ ((forall s, In s settlements_df -> s_settlement_id s <> None) ->
      Forall (fun r : Discrepancy =>
                settlement_id r = None ->
                is_nan (discrepancy_amount r) = true
                /\ is_nan (discrepancy_percent r) = true)
             (calculate_discrepancies
                (match_settlements_exact transactions_df settlements_df))).
Proof.
  split; [apply calculate_discrepancies_rows|].
  rewrite !calculate_discrepancies_map. repeat split.
  - apply List.Forall_forall. intros r Hr.
    apply in_map_iff in Hr as (row & <- & _).
    unfold discrepancy_row. cbn.
    destruct (is_nan (settled_amount row)); repeat split;
      intros; try discriminate; reflexivity.
  - apply List.Forall_forall. intros r Hr Hnone.
    apply in_map_iff in Hr as (row & <- & Hrow).
    pose proof (match_settlements_exact_unreferenced transactions_df settlements_df)
      as Hun.
    rewrite List.Forall_forall in Hun. rewrite (Hun row Hrow Hnone).
    repeat split.
  - intros Hids. apply List.Forall_forall. intros r Hr Hnone.
    apply in_map_iff in Hr as (row & <- & Hrow).
    apply match_settlements_exact_cases in Hrow
      as (t & Ht & [[-> _] | (s & Hs & _ & ->)]).
    + split; reflexivity.
    + cbn in Hnone. now apply Hids in Hs.
Qed.

Lemma Prim2SF_100 : exists m e, Prim2SF 100 = S754_finite false m e.
Proof. do 2 eexists. vm_compute. reflexivity. Qed.

(** With a zero expected amount the percentage is NaN only for a zero
    settled amount; any other settled amount divides to an infinity. *)
Lemma percent_of_zero_expected (e a : float) :
  is_zero e = true -> is_nan a = false ->
  (is_zero a = true -> ((e - a) / e * 100)%float = nan)
  /\ (is_zero a = false ->
      exists s : bool, ((e - a) / e * 100)%float = if s then neg_infinity else infinity).
Proof.
  intros He Ha.
  apply is_zero_Prim2SF in He as [se He].
  apply Prim2SF_not_nan in Ha.
  destruct Prim2SF_100 as (m & ex & H100).
  assert (Hsf : Prim2SF ((e - a) / e * 100)%float
                = SF64mul (SF64div (SF64sub (S754_zero se) (Prim2SF a)) (S754_zero se))
                          (S754_finite false m ex))
    by now rewrite mul_spec, div_spec, sub_spec, He, H100.
  split; intros Hz.
  - apply is_zero_Prim2SF in Hz as [sa Hz]. rewrite Hz in Hsf.
    apply Prim2SF_nan_eq. rewrite Hsf. now destruct se, sa.
  - destruct (Prim2SF a) as [sa|sa| |sa ma ea] eqn:Ea.
    + assert (is_zero a = true) by (apply is_zero_Prim2SF; eauto). congruence.
    + eexists. apply Prim2SF_infinity_eq. rewrite Hsf. reflexivity.
    + congruence.
    + eexists. apply Prim2SF_infinity_eq. rewrite Hsf. reflexivity.
Qed.

(** At [txn_zero] with [set_five]: the expected amount is zero, the settled
    amount is present, and the percentage is minus infinity, which is not
    a missing value; the record is then classified [discrepancy]. *)
Lemma zero_expected_percent_is_infinite :
  exists recs ghosts,
    reconcile_transactions Config.defaults [txn_zero] [set_five]
    = Ok (recs, ghosts)
    /\ map (fun r : ReconciledRecord =>
              (expected_settled_amount r, settled_amount r, discrepancy_amount r,
               discrepancy_percent r, is_nan (discrepancy_percent r),
               settlement_status r))
           recs
       = [ (0%float, 5%float, (-5)%float, neg_infinity, false, "discrepancy") ].
Proof. do 2 eexists. split; vm_compute; reflexivity. Qed.

(** C5 (amended): for a record whose expected amount is zero and whose
    settled amount is present, [calculate_discrepancies] is defined and
    gives a missing (NaN) [discrepancy_percent] exactly when the settled
    amount is zero too; for any other settled amount the percentage is an
    infinity, which is not a missing value. *)
Theorem zero_expected_discrepancy_percent (row : Matched) :
  is_zero (expected_settled_amount row) = true ->
  is_nan (settled_amount row) = false ->
  (is_zero (settled_amount row) = true ->
   is_nan (discrepancy_percent (discrepancy_row row)) = true)
  /\ (is_zero (settled_amount row) = false ->
      is_infinity (discrepancy_percent (discrepancy_row row)) = true
      /\ is_nan (discrepancy_percent (discrepancy_row row)) = false).
Proof.
  intros He Ha.
  destruct (percent_of_zero_expected _ _ He Ha) as [Hz Hnz].
  unfold discrepancy_row. cbn [discrepancy_percent]. rewrite Ha.
  split; intros H.
  - now rewrite (Hz H).
  - destruct (Hnz H) as [s ->]. now destruct s.
Qed.

Lemma zero_expected_discrepancy_percent_witness :
  is_infinity
    (discrepancy_percent
       (discrepancy_row
          (attach (with_expected txn_zero) set_five)))
  = true
  /\ is_nan
       (discrepancy_percent
          (discrepancy_row
             (attach (with_expected txn_zero) set_five)))
     = false.
Proof.
  exact (proj2 (zero_expected_discrepancy_percent
                  (attach (with_expected txn_zero) set_five)
                  eq_refl eq_refl)
               eq_refl).
Defined.

(** ** Discrepancies and settlements in the engine's output *)

Lemma is_finite_not_nan (x : float) : is_finite x = true -> is_nan x = false.
Proof.
  unfold is_finite. intros H.
  now apply negb_true_iff, orb_false_iff in H as [H _].
Qed.

Lemma reconcile_row_matched (df : list Matched) :
  map (fun r : ReconciledRecord => (r : Matched)) (map reconcile_row df) = df.
Proof.
  rewrite map_map.
  cbn [reconcile_row r_row c_row timed t_row discrepancy_row d_row].
  apply map_id.
Qed.




(** ** A settlement without amount *)

(** C10: a captured, refunded or chargedback record that has a
    settlement identifier but no settled amount gets a missing
    [discrepancy_amount], so the tolerance check is skipped and
    [classify_settlement_status] returns [matched]; the three stages
    return every row they are given, in order. *)
Theorem settlement_without_amount_is_matched (reconciled_df : list Matched) :
  forallb (fun row : Matched => span_fits (settlement_date row) (timestamp row))
          reconciled_df = true ->
  exists timed_df,
    detect_timing_anomalies (calculate_discrepancies reconciled_df) = Ok timed_df
    /\ map (fun r : Classified => (r : Matched))
           (classify_settlement_status timed_df)
       = reconciled_df
    /\ Forall (fun r : Classified =>
                 status r = "captured" \/ status r = "refunded"
                 \/ status r = "chargedback" ->
                 settlement_id r <> None ->
                 is_nan (settled_amount r) = true ->
                 is_nan (discrepancy_amount r) = true
                 /\ settlement_status r = "matched")
              (classify_settlement_status timed_df).
Proof.
  intros Hfit.
  rewrite detect_timing_anomalies_spec, calculate_discrepancies_map, forallb_map.
  cbn [discrepancy_row d_row]. rewrite Hfit.
  eexists. split; [reflexivity|].
  unfold classify_settlement_status. rewrite !map_map. split.
  - cbn [c_row timed t_row discrepancy_row d_row]. apply map_id.
  - apply List.Forall_forall. intros r Hr.
    apply in_map_iff in Hr as (row & <- & _).
    cbn. intros Hstatus Hsid Hnan.
    unfold classify_status. cbn. rewrite Hnan. cbn.
    destruct (settlement_id row) as [sid|]; [|congruence].
    destruct Hstatus as [-> | [-> | ->]]; split; reflexivity.
Qed.

Lemma settlement_without_amount_is_matched_witness :
  exists timed_df,
    detect_timing_anomalies
      (calculate_discrepancies [attach (with_expected txn_001) set_no_amount])
    = Ok timed_df
    /\ map (fun r : Classified => (status r, settlement_id r, settlement_status r))
           (classify_settlement_status timed_df)
       = [ ("captured", Some "SET_020", "matched") ].
Proof.
  destruct (settlement_without_amount_is_matched
              [attach (with_expected txn_001) set_no_amount] eq_refl)
    as (timed_df & Hrun & _).
  exists timed_df. split; [exact Hrun|].
  vm_compute in Hrun. injection Hrun as <-. vm_compute. reflexivity.
Defined.

(** ** Timing anomaly detector *)

Lemma get_threshold_threshold_days (payment_method : string) :
  get_threshold payment_method = threshold_days payment_method.
Proof.
  unfold get_threshold, get_settlement_timing, timing, threshold_days.
  destruct (String.eqb_spec payment_method "credit_card") as [-> | H1];
    [reflexivity|].
  rewrite lookup_insert_ne by congruence.
  destruct (String.eqb_spec payment_method "debit_card") as [-> | H2];
    [reflexivity|].
  rewrite lookup_insert_ne by congruence.
  destruct (String.eqb_spec payment_method "bank_transfer") as [-> | H3];
    [reflexivity|].
  rewrite lookup_insert_ne by congruence.
  destruct (String.eqb_spec payment_method "cash_voucher") as [-> | H4];
    [reflexivity|].
  rewrite lookup_insert_ne by congruence.
  now rewrite lookup_empty.
Qed.

Example scenario_D_late_card_settlement :
  exists out,
    detect_timing_anomalies
      (calculate_discrepancies
         [ attach (with_expected txn_001)
             {| s_settlement_id := Some "SET_030"; s_transaction_id := "TXN_001";
                s_settlement_date := Some (7 * ns_per_day + 3600);
                s_settled_amount := 96.80;
                s_currency := "BRL"; s_provider := "PayBridge" |} ])
    = Ok out
    /\ map (fun r : Timed =>
              (days_to_settle r, settlement_threshold r, timing_anomaly r))
           out
       = [ (Some 7, 5, true) ].
Proof. eexists. split; vm_compute; reflexivity. Qed.

(** A settlement dated out of range of the timestamp makes the detector
    raise. *)
Example scenario_G_date_out_of_range :
  detect_timing_anomalies
    (calculate_discrepancies [attach (with_expected txn_late) set_far])
  = Raise OverflowError.
Proof. vm_compute. reflexivity. Qed.

(** C8: [detect_timing_anomalies] returns every row it is given, in
    order, and sets [timing_anomaly] exactly when [days_to_settle] is
    present and strictly greater than the threshold of the record's
    payment method: 5 for credit and debit cards, 10 for bank transfers,
    8 for cash vouchers, 7 for any other method.  [days_to_settle] is the
    whole days from the transaction timestamp to the settlement date of a
    record that has one, and is missing otherwise.  It holds for every
    frame whose date differences are 64-bit integers; on the others the
    subtraction raises. *)
Theorem timing_anomaly_iff_over_threshold (reconciled_df : list Discrepancy) :
  forallb (fun row : Discrepancy =>
             span_fits (settlement_date row) (timestamp row))
          reconciled_df = true ->
  (exists out,
      detect_timing_anomalies reconciled_df = Ok out
      /\ map t_row out = reconciled_df
      /\ Forall (fun r : Timed =>
                   (timing_anomaly r = true
                    <-> exists days, days_to_settle r = Some days
                                     /\ threshold_days (payment_method r) < days)
                   /\ settlement_threshold r = threshold_days (payment_method r)
                   /\ days_to_settle r
                      = match settlement_date r with
                        | Some date => whole_days date (timestamp r)
                        | None => None
                        end)
                out)
  /\ threshold_days "credit_card" = 5 /\ threshold_days "debit_card" = 5
  /\ threshold_days "bank_transfer" = 10 /\ threshold_days "cash_voucher" = 8
  /\ (forall payment_method : string,
        ~ In payment_method
             ["credit_card"; "debit_card"; "bank_transfer"; "cash_voucher"] ->
        threshold_days payment_method = 7).
Proof.
  intros Hfit. split; [|repeat split].
  - rewrite detect_timing_anomalies_spec, Hfit.
    eexists. split; [reflexivity|]. split; [apply timed_rows|].
    apply List.Forall_forall. intros r Hr.
    apply in_map_iff in Hr as (row & <- & _).
    unfold timed. cbn. rewrite get_threshold_threshold_days.
    repeat split.
    + destruct (match settlement_date row with
                | Some date => whole_days date (timestamp row)
                | None => None
                end) as [days|]; [|discriminate].
      intros H. exists days. split; [reflexivity|]. now apply Z.ltb_lt.
    + intros (days & Hdays & Hlt). rewrite Hdays. now apply Z.ltb_lt.
  - intros payment_method Hnot. unfold threshold_days.
    destruct (String.eqb_spec payment_method "credit_card") as [-> | _];
      [exfalso; apply Hnot; cbn; tauto|].
    destruct (String.eqb_spec payment_method "debit_card") as [-> | _];
      [exfalso; apply Hnot; cbn; tauto|].
    destruct (String.eqb_spec payment_method "bank_transfer") as [-> | _];
      [exfalso; apply Hnot; cbn; tauto|].
    destruct (String.eqb_spec payment_method "cash_voucher") as [-> | _];
      [exfalso; apply Hnot; cbn; tauto|].
    reflexivity.
Qed.

Lemma timing_anomaly_iff_over_threshold_witness :
  exists out,
    detect_timing_anomalies
      (calculate_discrepancies
         [attach (with_expected txn_001) set_no_id;
          attach (with_expected txn_001) set_001;
          unmatched (with_expected txn_002)])
    = Ok out
    /\ map (fun r : Timed => (days_to_settle r, settlement_threshold r, timing_anomaly r))
           out
       = [ (Some 9, 5, true); (Some 2, 5, false); (None, 10, false) ].
Proof.
  destruct (proj1
              (timing_anomaly_iff_over_threshold
                 (calculate_discrepancies
                    [attach (with_expected txn_001) set_no_id;
                     attach (with_expected txn_001) set_001;
                     unmatched (with_expected txn_002)])
                 eq_refl))
    as (out & Hrun & _).
  exists out. split; [exact Hrun|].
  vm_compute in Hrun. injection Hrun as <-. vm_compute. reflexivity.
Defined.

(** ** Expected settlement against the amount *)

Example expected_below_amount_100 :
  forallb (fun payment_method =>
             (calculate_expected_settlement Config.defaults 100 payment_method
              <? 100)%float)
          supported_methods
  = true.
Proof. reflexivity. Qed.

(** The smallest positive binary64 amount, 2^-1074: the bank-transfer fee
    [amount * 1.5 / 100] rounds to zero, so the expected settlement is the
    amount itself, not a smaller value. *)
Lemma tiny_amount_expected_equals_amount :
  (0 <? 0x1p-1074)%float = true
  /\ calculate_fee Config.defaults 0x1p-1074 "bank_transfer" = 0%float
  /\ calculate_expected_settlement Config.defaults 0x1p-1074 "bank_transfer"
     = 0x1p-1074%float
  /\ (calculate_expected_settlement Config.defaults 0x1p-1074 "bank_transfer"
      <? 0x1p-1074)%float = false.
Proof. repeat split. Qed.

(** The last amounts at which the fee rounds to zero, and the first at
    which it does not. *)
Example fee_rounds_to_zero_until :
  calculate_fee Config.defaults 0x21p-1074 "bank_transfer" = 0%float
  /\ calculate_fee Config.defaults 0x22p-1074 "bank_transfer" = 0x1p-1074%float
  /\ calculate_fee Config.defaults 0xep-1074 "cash_voucher" = 0%float
  /\ calculate_fee Config.defaults 0xfp-1074 "cash_voucher" = 0x1p-1074%float
  /\ calculate_fee Config.defaults 0x1p-1074 "credit_card" = 0.30%float.
Proof. repeat split. Qed.

Lemma calculate_fee_other (cfg : Config.t) (amount : float) (payment_method : string) :
  payment_method <> "bank_transfer" -> payment_method <> "cash_voucher" ->
  calculate_fee cfg amount payment_method = calculate_card_fee cfg amount.
Proof.
  intros Hb Hv. unfold calculate_fee.
  apply String.eqb_neq in Hb, Hv. rewrite Hb, Hv.
  now destruct (_ || _).
Qed.

(** C9 (amended): at the default rates, for every finite amount above
    zero, [calculate_expected_settlement] returns a value strictly less
    than the amount for credit and debit cards (and for every method
    charged the card schedule); for a bank transfer it does so exactly
    when the amount is at least [34 * 2 ^ -1074], and for a cash voucher
    exactly when the amount is at least [15 * 2 ^ -1074]: below these the
    fee rounds to zero and the expected settlement is the amount
    itself. *)
Theorem expected_settlement_below_amount (amount : float) (payment_method : string) :
  is_finite amount = true ->
  (0 <? amount)%float = true ->
  (payment_method <> "bank_transfer" -> payment_method <> "cash_voucher" ->
   (calculate_expected_settlement Config.defaults amount payment_method
    <? amount)%float = true)
  /\ (calculate_expected_settlement Config.defaults amount "bank_transfer"
      <? amount)%float
     = (smallest_bank_amount <=? amount)%float
  /\ (calculate_expected_settlement Config.defaults amount "cash_voucher"
      <? amount)%float
     = (smallest_voucher_amount <=? amount)%float.
Proof.
  intros Hfin Hpos.
  destruct (positive_finite_Prim2SF amount) as (ma & ea & Ea).
  { unfold positive_finite. now rewrite Hfin, Hpos. }
  split.
  - intros Hb Hv. unfold calculate_expected_settlement.
    rewrite (calculate_fee_other _ _ _ Hb Hv).
    apply (sub_fee_lt amount _ ma ea Ea), (card_fee_val amount ma ea Ea).
  - destruct (Z.lt_ge_cases (Zpos ma) (2 ^ 8)) as [Htiny | Hbig].
    + pose proof (tiny_amount_listed amount ma ea Ea Htiny) as Hin.
      pose proof tiny_amounts_table as Htab.
      rewrite forallb_forall in Htab. specialize (Htab amount Hin).
      unfold below_from_smallest in Htab.
      apply andb_true_iff in Htab as [Hbank Hvoucher].
      apply Bool.eqb_prop in Hbank, Hvoucher. now split.
    + split.
      * rewrite (above_smallest amount smallest_bank_amount ma 34 ea Ea eq_refl)
          by (split; [reflexivity|exact Hbig]).
        unfold calculate_expected_settlement.
        change (calculate_fee Config.defaults amount "bank_transfer")
          with (amount * 1.5 / 100)%float.
        apply (sub_fee_lt amount _ ma ea Ea).
        apply (percent_fee_val amount 1.5 ma 6755399441055744 ea (-52) Ea eq_refl);
          [cbn|lia|exact Hbig]; lia.
      * rewrite (above_smallest amount smallest_voucher_amount ma 15 ea Ea eq_refl)
          by (split; [reflexivity|exact Hbig]).
        unfold calculate_expected_settlement.
        change (calculate_fee Config.defaults amount "cash_voucher")
          with (amount * 3.5 / 100)%float.
        apply (sub_fee_lt amount _ ma ea Ea).
        apply (percent_fee_val amount 3.5 ma 7881299347898368 ea (-51) Ea eq_refl);
          [cbn|lia|exact Hbig]; lia.
Qed.

Lemma expected_settlement_below_amount_witness :
  (calculate_expected_settlement Config.defaults 0.005 "credit_card"
   <? 0.005)%float = true
  /\ (calculate_expected_settlement Config.defaults 0.005 "bank_transfer"
      <? 0.005)%float = true
  /\ (calculate_expected_settlement Config.defaults 0x21p-1074 "bank_transfer"
      <? 0x21p-1074)%float = false.
Proof.
  pose proof (expected_settlement_below_amount 0.005 "credit_card"
                eq_refl eq_refl) as (Hcard & Hbank & _).
  pose proof (expected_settlement_below_amount 0x21p-1074 "bank_transfer"
                eq_refl eq_refl) as (_ & Hlow & _).
  split; [apply Hcard; discriminate|].
  split; [rewrite Hbank; reflexivity|rewrite Hlow; reflexivity].
Defined.

(** * Further properties of the engine *)

(** ** Outcomes of the status classifier *)

Lemma classify_status_in_statuses (row : Timed) :
  In (classify_status row) settlement_statuses.
Proof.
  unfold classify_status, settlement_statuses.
  destruct (_ || _); [cbn; tauto|].
  destruct (settlement_id row).
  - destruct (_ && _); cbn; tauto.
  - destruct (String.eqb _ _); [cbn; tauto|].
    destruct (_ || _); cbn; tauto.
Qed.

(** X1: every row leaves [classify_settlement_status] with one of the
    five outcomes [matched], [missing], [missing_expected], [discrepancy],
    [not_applicable], whatever its lifecycle status (an unknown one
    included), and the frame keeps its length. *)
Theorem settlement_status_closed (reconciled_df : list Timed) :
  Forall (fun r : Classified => In (settlement_status r) settlement_statuses)
         (classify_settlement_status reconciled_df)
  /\ length (classify_settlement_status reconciled_df) = length reconciled_df.
Proof.
  unfold classify_settlement_status. split.
  - apply List.Forall_forall. intros r Hr.
    apply in_map_iff in Hr as (row & <- & _). apply classify_status_in_statuses.
  - apply length_map.
Qed.

(** X2: [classify_settlement_status] returns every row it is given, in
    order; the outcome [missing] is given exactly to captured rows
    without a settlement identifier, [missing_expected] exactly to
    refunded or chargedback rows without one, and [discrepancy] exactly
    to rows that are neither authorized nor declined, carry a settlement
    identifier and exceed both tolerances; a [matched] row always
    carries a settlement identifier. *)
Theorem settlement_status_meaning (reconciled_df : list Timed) :
  map c_row (classify_settlement_status reconciled_df) = reconciled_df
  /\ Forall (fun r : Classified =>
               (settlement_status r = "missing"
                <-> status r = "captured" /\ settlement_id r = None)
               /\ (settlement_status r = "missing_expected"
                   <-> (status r = "refunded" \/ status r = "chargedback")
                       /\ settlement_id r = None)
               /\ (settlement_status r = "discrepancy"
                   <-> ~ In (status r) ["authorized"; "declined"]
                       /\ settlement_id r <> None
                       /\ (1.0 <? abs (discrepancy_amount r))%float = true
                       /\ (1.0 <? abs (discrepancy_percent r))%float = true)
               /\ (settlement_status r = "matched" ->
                   ~ In (status r) ["authorized"; "declined"]
                   /\ settlement_id r <> None))
            (classify_settlement_status reconciled_df).
Proof.
  split; [apply classify_settlement_status_rows|].
  unfold classify_settlement_status.
  apply List.Forall_forall. intros r Hr.
  apply in_map_iff in Hr as (row & <- & _). cbn [settlement_status c_row].
  rewrite classify_status_first_match.
  unfold decision_table, status_rules, first_match, lifecycle_in,
    no_settlement_attached, exceeds_both_tolerances, existsb.
  rewrite !orb_false_r. cbn [In].
  destruct (String.eqb_spec (status row) "authorized") as [Ea|Na];
    [rewrite Ea; cbn; repeat split; try discriminate; intros; intuition discriminate|].
  destruct (String.eqb_spec (status row) "declined") as [Ed|Nd];
    [rewrite Ed; cbn; repeat split; try discriminate; intros; intuition discriminate|].
  cbn [orb].
  destruct (settlement_id row) as [sid|]; cbn [andb].
  - destruct ((1 <? abs (discrepancy_amount row))%float);
      destruct ((1 <? abs (discrepancy_percent row))%float); cbn [andb];
      repeat split; try discriminate; intros; intuition (discriminate || congruence).
  - destruct (String.eqb_spec (status row) "captured") as [Ec|Nc].
    + rewrite Ec. repeat split; try discriminate; intros; intuition discriminate.
    + destruct (String.eqb_spec (status row) "refunded") as [Er|Nr];
        [rewrite Er; cbn; repeat split; try discriminate; intros; intuition discriminate|].
      destruct (String.eqb_spec (status row) "chargedback") as [Eb|Nb];
        [rewrite Eb; cbn; repeat split; try discriminate; intros; intuition discriminate|].
      cbn. repeat split; try discriminate; intros; intuition (discriminate || congruence).
Qed.

(** ** Records without a settlement *)

Lemma reconcile_row_unmatched_status (t : Expected) :
  In (settlement_status (reconcile_row (unmatched t)))
     ["missing"; "missing_expected"; "not_applicable"].
Proof.
  cbn. unfold classify_status. cbn.
  destruct (_ || _); [cbn; tauto|].
  destruct (String.eqb _ _); [cbn; tauto|].
  destruct (_ || _); cbn; tauto.
Qed.

(** A record with a settlement date carries a settlement row. *)
Lemma dated_row_attached (transactions_df : list Expected)
    (settlements_df : list Settlement) (row : Matched) :
  In row (match_settlements_exact transactions_df settlements_df) ->
  settlement_date row <> None ->
  exists s, In s settlements_df
            /\ s_transaction_id s = transaction_id row
            /\ row = attach (m_row row) s.
Proof.
  intros Hrow Hdate.
  apply match_settlements_exact_cases in Hrow
    as (t & Ht & [[-> _] | (s & Hs & Href & ->)]).
  - now cbn in Hdate.
  - now exists s.
Qed.

(** X3: the engine returns one record per row of the join.  A record
    whose transaction no settlement references has every settlement-side
    and derived field missing (identifier, date, settled amount, both
    discrepancy fields, days to settle), is not a timing anomaly, and is
    classified [missing], [missing_expected] or [not_applicable].  A
    record flagged as a timing anomaly carries a settlement row of the
    frame with a date; when every settlement row has an identifier it has
    a settlement identifier and is classified neither [missing] nor
    [missing_expected]. *)
Theorem unmatched_record_is_quiet (cfg : Config.t)
    (transactions_df : list Transaction) (settlements_df : list Settlement) :
  batch_ok transactions_df settlements_df = true ->
  exists recs ghosts,
    reconcile_transactions cfg transactions_df settlements_df = Ok (recs, ghosts)
    /\ map (fun r : ReconciledRecord => (r : Matched)) recs
       = match_settlements_exact
           (calculate_expected_amounts cfg transactions_df) settlements_df
    /\ Forall (fun r : ReconciledRecord =>
                 ((forall s, In s settlements_df ->
                             s_transaction_id s <> transaction_id r) ->
                  settlement_id r = None
                  /\ settlement_date r = None
                  /\ is_nan (settled_amount r) = true
                  /\ is_nan (discrepancy_amount r) = true
                  /\ is_nan (discrepancy_percent r) = true
                  /\ days_to_settle r = None
                  /\ timing_anomaly r = false
                  /\ In (settlement_status r)
                        ["missing"; "missing_expected"; "not_applicable"])
                 /\ (timing_anomaly r = true ->
                     settlement_date r <> None
                     /\ exists s, In s settlements_df
                                  /\ s_transaction_id s = transaction_id r
                                  /\ settlement_id r = s_settlement_id s
                                  /\ settlement_date r = s_settlement_date s)
                 /\ ((forall s, In s settlements_df -> s_settlement_id s <> None) ->
                     timing_anomaly r = true ->
                     settlement_id r <> None
                     /\ settlement_status r <> "missing"
                     /\ settlement_status r <> "missing_expected"))
              recs.
Proof.
  intros Hok. rewrite (batch_ok_run cfg _ _ Hok).
  do 2 eexists. split; [reflexivity|]. split; [apply reconcile_row_matched|].
  apply List.Forall_forall. intros r Hr.
  apply in_map_iff in Hr as (row & <- & Hrow).
  assert (Hdated : timing_anomaly (reconcile_row row) = true ->
                   settlement_date row <> None).
  { cbn [reconcile_row r_row c_row timed timing_anomaly discrepancy_row d_row].
    destruct (settlement_date row); [discriminate|]. intros E. discriminate E. }
  split; [|split].
  - intros Hnone.
    pose proof (match_settlements_exact_unreferenced
                  (calculate_expected_amounts cfg transactions_df) settlements_df)
      as Hun.
    rewrite List.Forall_forall in Hun. rewrite (Hun row Hrow Hnone).
    repeat split. apply reconcile_row_unmatched_status.
  - intros Hanomaly. specialize (Hdated Hanomaly). split; [exact Hdated|].
    destruct (dated_row_attached _ _ _ Hrow Hdated) as (s & Hs & Href & E).
    exists s. repeat split; trivial; cbn; rewrite E; reflexivity.
  - intros Hids Hanomaly. specialize (Hdated Hanomaly).
    destruct (dated_row_attached _ _ _ Hrow Hdated) as (s & Hs & Href & E).
    assert (Hsid : settlement_id row <> None)
      by (rewrite E; cbn; now apply Hids).
    split; [exact Hsid|].
    cbn [reconcile_row r_row c_row settlement_status]. unfold classify_status.
    cbn [timed t_row discrepancy_row d_row].
    destruct (settlement_id row) as [sid|]; [|congruence].
    destruct (_ || _); [split; discriminate|].
    destruct (_ && _); split; discriminate.
Qed.

Lemma unmatched_record_is_quiet_witness :
  exists recs ghosts,
    reconcile_transactions Config.defaults [txn_001; txn_002] [set_no_id]
    = Ok (recs, ghosts)
    /\ map (fun r : ReconciledRecord =>
              (settlement_id r, days_to_settle r, timing_anomaly r,
               settlement_status r))
           recs
       = [ (None, Some 9, true, "missing"); (None, None, false, "missing") ].
Proof.
  destruct (unmatched_record_is_quiet Config.defaults
              [txn_001; txn_002] [set_no_id] eq_refl)
    as (recs & ghosts & Hrun & _).
  exists recs, ghosts. split; [exact Hrun|].
  vm_compute in Hrun. injection Hrun as <- <-. vm_compute. reflexivity.
Defined.

(** ** Content of the join *)

(** X4: the matcher is a left join with fan-out.  Its rows are exactly,
    for each transaction, the transaction alone when no settlement
    references its identifier, and otherwise the transaction with each
    settlement that references it; so a transaction referenced by [k >= 1]
    settlements gives [k] rows, none is dropped, and the frame has
    [sum max(1, k)] rows. *)
Theorem match_settlements_exact_content
    (transactions_df : list Expected) (settlements_df : list Settlement) :
  (forall r : Matched,
     In r (match_settlements_exact transactions_df settlements_df)
     <-> exists t, In t transactions_df
                   /\ ((r = unmatched t
                        /\ forall s, In s settlements_df ->
                                     s_transaction_id s <> transaction_id t)
                       \/ exists s, In s settlements_df
                                    /\ s_transaction_id s = transaction_id t
                                    /\ r = attach t s))
  /\ length (match_settlements_exact transactions_df settlements_df)
     = list_sum (map (fan_out settlements_df) transactions_df)
  /\ (length transactions_df
      <= length (match_settlements_exact transactions_df settlements_df))%nat.
Proof.
  split; [intros r; apply match_settlements_exact_cases|].
  rewrite match_settlements_exact_length. split; [reflexivity|].
  apply list_sum_ge_length. intros t. lia.
Qed.

(** ** Ghost settlements and orphans *)

Lemma omap_cons {A B : Type} (f : A -> option B) (a : A) (l : list A) :
  omap f (a :: l)
  = match f a with Some b => b :: omap f l | None => omap f l end.
Proof. reflexivity. Qed.

Lemma In_omap {A B : Type} (f : A -> option B) (l : list A) (b : B) :
  In b (omap f l) <-> exists a, In a l /\ f a = Some b.
Proof.
  rewrite <- list_elem_of_In, list_elem_of_omap.
  split; intros (a & Ha & E); exists a; (split; [|exact E]);
    now apply list_elem_of_In.
Qed.

Lemma NoDup_omap_unique {A B : Type} (f : A -> option B) (l : list A)
    (x y : A) (b : B) :
  List.NoDup (omap f l) -> In x l -> In y l ->
  f x = Some b -> f y = Some b -> x = y.
Proof.
  induction l as [|a l IH]; [intros _ []|].
  rewrite omap_cons. intros Hnd Hx Hy Ex Ey.
  destruct (f a) as [b'|] eqn:Ea.
  - apply List.NoDup_cons_iff in Hnd as [Hnot Hnd].
    destruct Hx as [-> | Hx], Hy as [-> | Hy]; trivial.
    + exfalso. apply Hnot. apply In_omap. exists y. split; [exact Hy|]. congruence.
    + exfalso. apply Hnot. apply In_omap. exists x. split; [exact Hx|]. congruence.
    + now apply IH.
  - destruct Hx as [-> | Hx]; [congruence|].
    destruct Hy as [-> | Hy]; [congruence|]. now apply IH.
Qed.

(** With distinct identifiers the ghosts are the orphans. *)
Lemma ghosts_are_orphans (cfg : Config.t)
    (transactions_df : list Transaction) (settlements_df : list Settlement) :
  List.NoDup (omap s_settlement_id settlements_df) ->
  identify_ghost_settlements
    (classify_settlement_status
       (map timed
          (map discrepancy_row
             (match_settlements_exact
                (calculate_expected_amounts cfg transactions_df) settlements_df))))
    settlements_df
  = map ghost_of (List.filter (is_orphan transactions_df) settlements_df).
Proof.
  intros Hnd. rewrite identify_ghost_settlements_spec.
  f_equal. apply filter_ext_in. intros s Hs.
  apply eq_true_iff_eq. rewrite bool_decide_eq_true. unfold is_orphan.
  destruct (s_settlement_id s) as [sid|] eqn:Hsid; cbn [notna negb orb].
  - rewrite matched_settlement_ids_spec, negb_true_iff. split.
    + intros Hnot. destruct (has_transaction transactions_df s) eqn:E; trivial.
      exfalso. apply Hnot. now exists s.
    + intros Hno (s' & Hs' & Htxn & Hid).
      rewrite (NoDup_omap_unique _ _ _ _ _ Hnd Hs' Hs Hid Hsid) in Htxn.
      congruence.
  - split; [reflexivity|]. intros _. apply missing_id_not_matched.
Qed.

(** X5: when the identifiers of the settlement rows that have one are
    distinct, the ghost records the engine returns are exactly the
    settlements that have no identifier or whose transaction identifier
    belongs to no transaction, in the order of the settlement frame, each
    with its own fields and the tag [ghost_settlement]. *)
Theorem ghost_settlements_are_orphans (cfg : Config.t)
    (transactions_df : list Transaction) (settlements_df : list Settlement) :
  batch_ok transactions_df settlements_df = true ->
  List.NoDup (omap s_settlement_id settlements_df) ->
  exists recs ghosts,
    reconcile_transactions cfg transactions_df settlements_df = Ok (recs, ghosts)
    /\ ghosts
       = map ghost_of (List.filter (is_orphan transactions_df) settlements_df)
    /\ (forall s, In s settlements_df ->
          (In (ghost_of s) ghosts
           <-> s_settlement_id s = None
               \/ forall t, In t transactions_df ->
                            transaction_id t <> s_transaction_id s)).
Proof.
  intros Hok Hnd. rewrite (batch_ok_run cfg _ _ Hok).
  rewrite (ghosts_are_orphans cfg _ _ Hnd).
  do 2 eexists. split; [reflexivity|]. split; [reflexivity|].
  intros s Hs. rewrite in_map_iff. unfold is_orphan. split.
  - intros (s' & E & Hs').
    assert (s' = s) by (now injection E). subst s'.
    apply filter_In in Hs' as [_ Hor]. apply orb_true_iff in Hor as [Hid | Hno].
    + left. now destruct (s_settlement_id s).
    + right. intros t Ht Href. apply negb_true_iff in Hno.
      assert (has_transaction transactions_df s = true)
        by (apply has_transaction_spec; eauto).
      congruence.
  - intros Hcase. exists s. split; [reflexivity|].
    apply filter_In. split; [exact Hs|]. apply orb_true_iff.
    destruct Hcase as [-> | Hnone]; [now left|]. right. apply negb_true_iff.
    destruct (has_transaction transactions_df s) eqn:E; trivial.
    apply has_transaction_spec in E as (t & Ht & Href).
    now apply Hnone in Ht.
Qed.

Lemma ghost_settlements_are_orphans_witness :
  exists recs ghosts,
    reconcile_transactions Config.defaults [txn_001; txn_002]
      [set_001; set_no_id; set_five]
    = Ok (recs, ghosts)
    /\ ghosts = [ghost_of set_no_id; ghost_of set_five].
Proof.
  destruct (ghost_settlements_are_orphans Config.defaults [txn_001; txn_002]
              [set_001; set_no_id; set_five] eq_refl)
    as (recs & ghosts & Hrun & Hghosts & _).
  - repeat constructor; cbn; intuition discriminate.
  - exists recs, ghosts. split; [exact Hrun|exact Hghosts].
Defined.

(** ** Every settlement is accounted for once *)

Lemma count_unique {A : Type} (f : A -> string) (x : string) (l : list A) :
  List.NoDup (map f l) ->
  length (List.filter (fun a => String.eqb x (f a)) l)
  = if existsb (fun a => String.eqb (f a) x) l then 1%nat else 0%nat.
Proof.
  induction l as [|a l IH]; [reflexivity|].
  cbn [map List.filter existsb]. intros Hnd.
  apply List.NoDup_cons_iff in Hnd as [Hnot Hnd]. specialize (IH Hnd).
  rewrite (String.eqb_sym (f a) x).
  destruct (String.eqb_spec x (f a)) as [-> | Hne]; cbn [orb length].
  - rewrite IH.
    destruct (existsb _ l) eqn:E; [|reflexivity].
    exfalso. apply Hnot. apply existsb_exists in E as (b & Hb & Eb).
    apply String.eqb_eq in Eb. rewrite <- Eb. now apply in_map.
  - exact IH.
Qed.

Lemma filter_filter_andb {A : Type} (f g : A -> bool) (l : list A) :
  List.filter f (List.filter g l) = List.filter (fun a => g a && f a) l.
Proof.
  induction l as [|a l IH]; [reflexivity|]. cbn [List.filter].
  destruct (g a); cbn [List.filter andb]; [destruct (f a)|]; now rewrite IH.
Qed.

Lemma filter_comm {A : Type} (f g : A -> bool) (l : list A) :
  List.filter f (List.filter g l) = List.filter g (List.filter f l).
Proof.
  rewrite !filter_filter_andb. apply filter_ext. intros a. apply andb_comm.
Qed.

(** The rows of one transaction that carry a settlement identifier. *)
Lemma identified_rows_length (settlements_df : list Settlement) (t : Expected) :
  length (List.filter (fun row : Matched => notna (settlement_id row))
                      (merge_row settlements_df t))
  = length (List.filter (references (transaction_id t))
              (List.filter (fun s => notna (s_settlement_id s)) settlements_df)).
Proof.
  rewrite filter_comm. unfold merge_row.
  destruct (List.filter (references (transaction_id t)) settlements_df)
    as [|s0 ss]; [reflexivity|].
  rewrite List.filter_map_swap, length_map. reflexivity.
Qed.

(** Counting the pairs of a row and a settlement that references it, by
    rows and by settlements. *)
Lemma references_count_swap (transactions_df : list Expected)
    (settlements_df : list Settlement) :
  list_sum (map (fun t : Expected =>
                   length (List.filter (references (transaction_id t))
                                       settlements_df))
                transactions_df)
  = list_sum (map (fun s =>
                     length (List.filter
                               (fun t : Expected =>
                                  String.eqb (s_transaction_id s) (transaction_id t))
                               transactions_df))
                  settlements_df).
Proof.
  induction settlements_df as [|s ss IH].
  - cbn. induction transactions_df as [|t ts IHt]; [reflexivity|exact IHt].
  - cbn [map]. change (list_sum (?x :: ?l)) with (x + list_sum l)%nat.
    rewrite <- IH. clear IH.
    induction transactions_df as [|t ts IHt]; [reflexivity|].
    cbn [map].
    change (list_sum (?x :: ?l)) with (x + list_sum l)%nat.
    rewrite IHt. cbn [List.filter]. unfold references at 1.
    destruct (String.eqb (s_transaction_id s) (transaction_id t));
      cbn [length list_sum fold_right]; lia.
Qed.

Lemma has_settlement_records_length (cfg : Config.t)
    (transactions_df : list Transaction) (settlements_df : list Settlement) :
  List.NoDup (map transaction_id transactions_df) ->
  length (List.filter has_settlement
            (map reconcile_row
               (match_settlements_exact
                  (calculate_expected_amounts cfg transactions_df) settlements_df)))
  = length (List.filter
              (fun s => notna (s_settlement_id s)
                        && has_transaction transactions_df s)
              settlements_df).
Proof.
  intros Hnd.
  rewrite List.filter_map_swap, length_map.
  change (fun a : Matched => has_settlement (reconcile_row a))
    with (fun a : Matched => notna (settlement_id a)).
  rewrite <- filter_filter_andb.
  set (identified := List.filter (fun s => notna (s_settlement_id s)) settlements_df).
  assert (Hsum : forall ts : list Expected,
             length (List.filter (fun row : Matched => notna (settlement_id row))
                       (match_settlements_exact ts settlements_df))
             = list_sum (map (fun t : Expected =>
                                length (List.filter (references (transaction_id t))
                                                    identified)) ts)).
  { induction ts as [|t ts IH]; [reflexivity|].
    unfold match_settlements_exact in *. cbn [flat_map map].
    change (list_sum (?x :: ?l)) with (x + list_sum l)%nat.
    now rewrite List.filter_app, List.length_app, IH, identified_rows_length. }
  rewrite Hsum, references_count_swap. clear Hsum.
  induction identified as [|s ss IH]; [reflexivity|].
  cbn [map List.filter].
  change (list_sum (?x :: ?l)) with (x + list_sum l)%nat.
  rewrite IH.
  unfold calculate_expected_amounts at 1.
  rewrite <- (length_map (fun e : Expected => (e : Transaction))).
  rewrite <- List.filter_map_swap
    with (f := fun t : Transaction =>
                 String.eqb (s_transaction_id s) (transaction_id t)),
       map_map.
  cbn [e_txn]. rewrite map_id.
  rewrite (count_unique transaction_id (s_transaction_id s) _ Hnd).
  fold (has_transaction transactions_df s).
  destruct (has_transaction transactions_df s); reflexivity.
Qed.

(** X6: when the transaction identifiers are distinct and the
    identifiers of the settlement rows that have one are distinct, the
    engine accounts for every settlement exactly once: the records that
    carry a settlement identifier and the ghost records together are as
    many as the settlements. *)
Theorem settlements_accounted_once (cfg : Config.t)
    (transactions_df : list Transaction) (settlements_df : list Settlement) :
  batch_ok transactions_df settlements_df = true ->
  List.NoDup (map transaction_id transactions_df) ->
  List.NoDup (omap s_settlement_id settlements_df) ->
  exists recs ghosts,
    reconcile_transactions cfg transactions_df settlements_df = Ok (recs, ghosts)
    /\ (length (List.filter has_settlement recs) + length ghosts
        = length settlements_df)%nat.
Proof.
  intros Hok Ht Hs. rewrite (batch_ok_run cfg _ _ Hok).
  do 2 eexists. split; [reflexivity|].
  rewrite (has_settlement_records_length cfg _ _ Ht), (ghosts_are_orphans cfg _ _ Hs).
  rewrite length_map.
  rewrite (filter_ext (is_orphan transactions_df)
             (fun s => negb (notna (s_settlement_id s)
                             && has_transaction transactions_df s))).
  - apply List.filter_length.
  - intros s. unfold is_orphan. now rewrite negb_andb.
Qed.

Lemma settlements_accounted_once_witness :
  exists recs ghosts,
    reconcile_transactions Config.defaults [txn_001; txn_002]
      [set_001; set_no_id; set_five]
    = Ok (recs, ghosts)
    /\ length (List.filter has_settlement recs) = 1%nat
    /\ length ghosts = 2%nat.
Proof.
  destruct (settlements_accounted_once Config.defaults [txn_001; txn_002]
              [set_001; set_no_id; set_five] eq_refl)
    as (recs & ghosts & Hrun & _).
  - repeat constructor; cbn; intuition discriminate.
  - repeat constructor; cbn; intuition discriminate.
  - exists recs, ghosts. split; [exact Hrun|].
    vm_compute in Hrun. injection Hrun as <- <-. split; reflexivity.
Defined.

(** ** Settlement windows and the late boundary *)


Lemma late_boundary (threshold d ts : Z) :
  threshold < (d - ts) / ns_per_day
  <-> ts + (threshold + 1) * ns_per_day <= d.
Proof.
  assert (Hpos : 0 < ns_per_day) by reflexivity.
  pose proof (Z.div_mod (d - ts) ns_per_day ltac:(lia)) as Hdm.
  pose proof (Z.mod_pos_bound (d - ts) ns_per_day Hpos) as Hb.
  set (q := (d - ts) / ns_per_day) in *.
  set (r := (d - ts) mod ns_per_day) in *.
  unfold ns_per_day in *. lia.
Qed.

Lemma get_threshold_pos (payment_method : string) :
  0 < get_threshold payment_method.
Proof.
  rewrite get_threshold_threshold_days. unfold threshold_days.
  repeat match goal with |- context [String.eqb ?a ?b] =>
           destruct (String.eqb a b) end; lia.
Qed.

(** The flag of a row whose date difference is a 64-bit integer. *)
Lemma timed_anomaly_dated (row : Discrepancy) (d : Z) :
  settlement_date row = Some d ->
  span_fits (settlement_date row) (timestamp row) = true ->
  timing_anomaly (timed row)
  = (get_threshold (payment_method row) <? (d - timestamp row) / ns_per_day).
Proof.
  intros Hd Hfit. unfold timed, whole_days. cbn [timing_anomaly].
  rewrite Hd in Hfit |- *. cbn [span_fits] in Hfit.
  apply andb_true_iff in Hfit as [Hlo _]. apply Z.leb_le in Hlo.
  destruct (Z.eqb_spec (d - timestamp row) int64_min) as [E|_]; [|reflexivity].
  symmetry. apply Z.ltb_ge.
  assert (Hq : (d - timestamp row) / ns_per_day <= 0).
  { apply Z.div_le_upper_bound; [reflexivity|]. rewrite E. discriminate. }
  pose proof (get_threshold_pos (payment_method row)). lia.
Qed.

(** X7: on a frame whose date differences are 64-bit integers
    [detect_timing_anomalies] returns every row, in order, and flags a
    row as a timing anomaly exactly when it has a settlement date that
    lies at least [threshold + 1] whole days after the transaction
    timestamp; a settlement dated less than one day past the threshold,
    and any settlement dated on or before its transaction, is not
    flagged. *)
Theorem timing_anomaly_from_next_day (reconciled_df : list Discrepancy) :
  forallb (fun row : Discrepancy =>
             span_fits (settlement_date row) (timestamp row))
          reconciled_df = true ->
  exists out,
    detect_timing_anomalies reconciled_df = Ok out
    /\ map t_row out = reconciled_df
    /\ Forall (fun r : Timed =>
                 (timing_anomaly r = true
                  <-> exists d, settlement_date r = Some d
                                /\ timestamp r
                                   + (settlement_threshold r + 1) * ns_per_day
                                   <= d)
                 /\ (forall d, settlement_date r = Some d -> d <= timestamp r ->
                               timing_anomaly r = false))
              out.
Proof.
  intros Hfit. rewrite detect_timing_anomalies_spec, Hfit.
  eexists. split; [reflexivity|]. split; [apply timed_rows|].
  apply List.Forall_forall. intros r Hr.
  apply in_map_iff in Hr as (row & <- & Hrow).
  rewrite forallb_forall in Hfit. specialize (Hfit row Hrow).
  change (settlement_date (timed row)) with (settlement_date row).
  change (timestamp (timed row)) with (timestamp row).
  change (settlement_threshold (timed row))
    with (get_threshold (payment_method row)).
  destruct (settlement_date row) as [d|] eqn:Hd.
  - rewrite (timed_anomaly_dated row d Hd) by (now rewrite Hd).
    split; [split|].
    + intros H. exists d. split; [reflexivity|].
      apply late_boundary. now apply Z.ltb_lt.
    + intros (d' & Hd' & Hle). injection Hd' as <-.
      apply Z.ltb_lt. now apply late_boundary.
    + intros d' Hd' Hle. injection Hd' as <-.
      apply Z.ltb_ge.
      assert (Hq : (d - timestamp row) / ns_per_day <= 0)
        by (apply Z.div_le_upper_bound; [reflexivity|lia]).
      pose proof (get_threshold_pos (payment_method row)). lia.
  - unfold timed. rewrite Hd. cbn [timing_anomaly].
    split; [split|]; [discriminate|intros (d & Hd' & _); discriminate|
                      intros d Hd'; discriminate].
Qed.

Lemma timing_anomaly_from_next_day_witness :
  exists out,
    detect_timing_anomalies
      (calculate_discrepancies
         [attach (with_expected txn_001) set_no_id;
          attach (with_expected txn_001) set_001])
    = Ok out
    /\ map (fun r : Timed => timing_anomaly r) out = [true; false].
Proof.
  destruct (timing_anomaly_from_next_day
              (calculate_discrepancies
                 [attach (with_expected txn_001) set_no_id;
                  attach (with_expected txn_001) set_001])
              eq_refl)
    as (out & Hrun & _).
  exists out. split; [exact Hrun|].
  vm_compute in Hrun. injection Hrun as <-. vm_compute. reflexivity.
Defined.


Lemma batch_ok_fits (transactions_df : list Transaction)
    (settlements_df : list Settlement) :
  batch_ok transactions_df settlements_df = true
  <-> transactions_df <> []
      /\ spans_fit transactions_df settlements_df = true
      /\ expected_dates_fit transactions_df = true.
Proof.
  unfold batch_ok. destruct transactions_df as [|t ts].
  - split; [discriminate|]. now intros [H _].
  - rewrite andb_true_iff. split; [intros [H1 H2]|intros (_ & H1 & H2)];
      repeat split; trivial; discriminate.
Qed.



(** ** A settlement of exactly the expected amount *)

(** X9: on a frame whose date differences are 64-bit integers the
    three stages after the join return every row, in order; when the
    settled amount of a row is finite and equal to the expected settled
    amount, [calculate_discrepancies] reports a discrepancy amount of
    exactly zero, and [classify_settlement_status] does not classify the
    row as [discrepancy]: with a settlement identifier and a lifecycle
    status other than [authorized] and [declined] the row is
    [matched]. *)
Theorem exact_settlement_is_matched (reconciled_df : list Matched) :
  forallb (fun row : Matched => span_fits (settlement_date row) (timestamp row))
          reconciled_df = true ->
  exists timed_df,
    detect_timing_anomalies (calculate_discrepancies reconciled_df) = Ok timed_df
    /\ map (fun r : Classified => (r : Matched))
           (classify_settlement_status timed_df)
       = reconciled_df
    /\ Forall (fun r : Classified =>
                 is_finite (settled_amount r) = true ->
                 settled_amount r = expected_settled_amount r ->
                 discrepancy_amount r = 0%float
                 /\ settlement_status r <> "discrepancy"
                 /\ (settlement_id r <> None ->
                     status r <> "authorized" -> status r <> "declined" ->
                     settlement_status r = "matched"))
              (classify_settlement_status timed_df).
Proof.
  intros Hfit.
  rewrite detect_timing_anomalies_spec, calculate_discrepancies_map, forallb_map.
  cbn [discrepancy_row d_row]. rewrite Hfit.
  eexists. split; [reflexivity|].
  unfold classify_settlement_status. rewrite !map_map. split.
  - cbn [c_row timed t_row discrepancy_row d_row]. apply map_id.
  - apply List.Forall_forall. intros r Hr.
    apply in_map_iff in Hr as (row & <- & _).
    cbn [c_row settlement_status].
    change (settled_amount (timed (discrepancy_row row)))
      with (settled_amount row).
    change (expected_settled_amount (timed (discrepancy_row row)))
      with (expected_settled_amount row).
    change (settlement_id (timed (discrepancy_row row)))
      with (settlement_id row).
    change (status (timed (discrepancy_row row))) with (status row).
    intros Hfin Heq.
    assert (Hda : discrepancy_amount (timed (discrepancy_row row)) = 0%float).
    { cbn [discrepancy_amount t_row timed discrepancy_row].
      rewrite (is_finite_not_nan _ Hfin), <- Heq. now apply sub_self. }
    split; [exact Hda|].
    unfold classify_status. rewrite Hda.
    change (settlement_id (timed (discrepancy_row row)))
      with (settlement_id row).
    change (status (timed (discrepancy_row row))) with (status row).
    change (discrepancy_threshold_amount <? abs 0)%float with false.
    rewrite andb_false_l, andb_false_r.
    split.
    + destruct (_ || _); [discriminate|].
      destruct (settlement_id row); [discriminate|].
      destruct (String.eqb (status row) "captured"); [discriminate|].
      destruct (_ || _); discriminate.
    + intros Hsid Ha Hd.
      apply String.eqb_neq in Ha, Hd. rewrite Ha, Hd. cbn [orb].
      destruct (settlement_id row); [reflexivity|congruence].
Qed.

Lemma exact_settlement_is_matched_witness :
  exists timed_df,
    detect_timing_anomalies
      (calculate_discrepancies [attach (with_expected txn_001) set_001])
    = Ok timed_df
    /\ map (fun r : Classified =>
              (is_finite (settled_amount r),
               (settled_amount r =? expected_settled_amount r)%float,
               settlement_status r))
           (classify_settlement_status timed_df)
       = [(true, true, "matched")].
Proof.
  destruct (exact_settlement_is_matched
              [attach (with_expected txn_001) set_001] eq_refl)
    as (timed_df & Hrun & _).
  exists timed_df. split; [exact Hrun|].
  vm_compute in Hrun. injection Hrun as <-. vm_compute. reflexivity.
Defined.

(** ** The sign of a fee *)

(** X10: under a fee schedule whose percentages are finite and positive
    and whose fixed card fee is finite and not negative, the fee of an
    amount that is not negative is not negative (and is a number), for
    every payment method, the unknown ones included. *)
Theorem calculate_fee_nonneg (cfg : Config.t) (amount : float)
    (payment_method : string) :
  fee_schedule_ok cfg = true ->
  (0 <=? amount)%float = true ->
  (0 <=? calculate_fee cfg amount payment_method)%float = true.
Proof.
  unfold fee_schedule_ok. intros Hcfg Ha.
  apply andb_true_iff in Hcfg as [Hcfg Hv].
  apply andb_true_iff in Hcfg as [Hcfg Hb].
  apply andb_true_iff in Hcfg as [Hc Hf].
  apply leb_zero_nonneg in Ha. apply leb_zero_nonneg.
  assert (Hcard : sf_nonneg (Prim2SF (calculate_card_fee cfg amount))).
  { unfold calculate_card_fee. rewrite add_spec.
    apply add_nonneg; [now apply percent_fee_nonneg|].
    now apply nonneg_finite_Prim2SF. }
  unfold calculate_fee.
  destruct (_ || _); [exact Hcard|].
  destruct (String.eqb payment_method "bank_transfer");
    [now apply percent_fee_nonneg|].
  destruct (String.eqb payment_method "cash_voucher");
    [now apply percent_fee_nonneg|exact Hcard].
Qed.

Lemma calculate_fee_nonneg_witness :
  (0 <=? calculate_fee Config.defaults 100 "credit_card")%float = true.
Proof.
  apply (calculate_fee_nonneg Config.defaults 100 "credit_card");
    vm_compute; reflexivity.
Defined.


(** ** Currency conversion *)

Lemma rates_lookup (cfg : Rates.t) (currency : string) :
  rates cfg !! currency
  = if String.eqb currency "BRL" then Some (BRL_TO_USD cfg)
    else if String.eqb currency "MXN" then Some (MXN_TO_USD cfg)
    else if String.eqb currency "COP" then Some (COP_TO_USD cfg)
    else if String.eqb currency "CLP" then Some (CLP_TO_USD cfg)
    else if String.eqb currency "USD" then Some 1.0%float
    else None.
Proof.
  unfold rates.
  destruct (String.eqb_spec currency "BRL") as [-> | H1]; [reflexivity|].
  rewrite lookup_insert_ne by congruence.
  destruct (String.eqb_spec currency "MXN") as [-> | H2]; [reflexivity|].
  rewrite lookup_insert_ne by congruence.
  destruct (String.eqb_spec currency "COP") as [-> | H3]; [reflexivity|].
  rewrite lookup_insert_ne by congruence.
  destruct (String.eqb_spec currency "CLP") as [-> | H4]; [reflexivity|].
  rewrite lookup_insert_ne by congruence.
  destruct (String.eqb_spec currency "USD") as [-> | H5]; [reflexivity|].
  rewrite lookup_insert_ne by congruence.
  apply lookup_empty.
Qed.

(** X11: [convert_to_usd] multiplies an amount in BRL, MXN, COP or CLP by
    the configured rate of that currency, and returns every other
    amount, in USD or in a currency it does not know, unchanged:
    the same binary64 value, NaN staying NaN. *)
Theorem convert_to_usd_table (cfg : Rates.t) (amount : float) (currency : string) :
  convert_to_usd cfg amount "BRL" = (amount * BRL_TO_USD cfg)%float
  /\ convert_to_usd cfg amount "MXN" = (amount * MXN_TO_USD cfg)%float
  /\ convert_to_usd cfg amount "COP" = (amount * COP_TO_USD cfg)%float
  /\ convert_to_usd cfg amount "CLP" = (amount * CLP_TO_USD cfg)%float
  /\ convert_to_usd cfg amount "USD" = amount
  /\ (~ In currency ["BRL"; "MXN"; "COP"; "CLP"] ->
      get_exchange_rate cfg currency = 1.0%float
      /\ convert_to_usd cfg amount currency = amount).
Proof.
  unfold convert_to_usd, get_exchange_rate.
  repeat split; try (rewrite rates_lookup; cbn [String.eqb Ascii.eqb Bool.eqb default];
                     first [reflexivity | apply mul_one]).
  - rewrite rates_lookup.
    destruct (String.eqb_spec currency "BRL") as [-> | _];
      [exfalso; apply H; cbn; tauto|].
    destruct (String.eqb_spec currency "MXN") as [-> | _];
      [exfalso; apply H; cbn; tauto|].
    destruct (String.eqb_spec currency "COP") as [-> | _];
      [exfalso; apply H; cbn; tauto|].
    destruct (String.eqb_spec currency "CLP") as [-> | _];
      [exfalso; apply H; cbn; tauto|].
    now destruct (String.eqb currency "USD").
  - rewrite rates_lookup.
    destruct (String.eqb_spec currency "BRL") as [-> | _];
      [exfalso; apply H; cbn; tauto|].
    destruct (String.eqb_spec currency "MXN") as [-> | _];
      [exfalso; apply H; cbn; tauto|].
    destruct (String.eqb_spec currency "COP") as [-> | _];
      [exfalso; apply H; cbn; tauto|].
    destruct (String.eqb_spec currency "CLP") as [-> | _];
      [exfalso; apply H; cbn; tauto|].
    destruct (String.eqb currency "USD"); apply mul_one.
Qed.

Example convert_to_usd_docstring :
  convert_to_usd Rates.defaults 100 "BRL" = 20%float
  /\ convert_to_usd Rates.defaults 1000 "MXN" = 55%float.
Proof. split; vm_compute; reflexivity. Qed.


(** ** The sign of a discrepancy *)

(** X12: [calculate_discrepancies] returns every row it is given, in
    order; for a row whose settled amount and expected settled amount
    are finite, the sign of [discrepancy_amount] tells the direction of
    the difference: it is above zero exactly when the settlement is
    short of the expected amount, below zero exactly when the settlement
    exceeds it, and zero exactly when the two are equal; no difference
    is lost to rounding. *)
Theorem discrepancy_amount_sign (reconciled_df : list Matched) :
  map d_row (calculate_discrepancies reconciled_df) = reconciled_df
  /\ Forall (fun r : Discrepancy =>
               is_finite (settled_amount r) = true ->
               is_finite (expected_settled_amount r) = true ->
               (0 <? discrepancy_amount r)%float
               = (settled_amount r <? expected_settled_amount r)%float
               /\ (discrepancy_amount r <? 0)%float
                  = (expected_settled_amount r <? settled_amount r)%float
               /\ (discrepancy_amount r =? 0)%float
                  = (expected_settled_amount r =? settled_amount r)%float)
            (calculate_discrepancies reconciled_df).
Proof.
  split; [apply calculate_discrepancies_rows|].
  rewrite calculate_discrepancies_map.
  apply List.Forall_forall. intros r Hr.
  apply in_map_iff in Hr as (row & <- & _).
  cbn [discrepancy_row d_row discrepancy_amount]. intros Hs He.
  rewrite (is_finite_not_nan _ Hs). now apply sub_compare.
Qed.

Example discrepancy_amount_sign_at_sample :
  map (fun r : Discrepancy =>
         (is_finite (settled_amount r), is_finite (expected_settled_amount r),
          (0 <? discrepancy_amount r)%float,
          (settled_amount r <? expected_settled_amount r)%float))
      (calculate_discrepancies [attach (with_expected txn_001) set_no_id])
  = [(true, true, true, true)].
Proof. vm_compute. reflexivity. Qed.

(** ** Order of the records and batches of transactions *)

Lemma map_const_repeat {A B : Type} (b : B) (l : list A) :
  map (fun _ => b) l = repeat b (length l).
Proof. induction l as [|a l IH]; [reflexivity|]. cbn. now rewrite IH. Qed.

(** X13: on every batch the engine returns on, the reconciled frame
    lists the transactions in the order of the transaction frame, each
    with its own columns unchanged, once when no settlement references it
    and otherwise once per settlement that references it. *)
Theorem reconciled_frame_in_transaction_order (cfg : Config.t)
    (transactions_df : list Transaction) (settlements_df : list Settlement) :
  batch_ok transactions_df settlements_df = true ->
  exists recs ghosts,
    reconcile_transactions cfg transactions_df settlements_df = Ok (recs, ghosts)
    /\ map (fun r : ReconciledRecord => (r : Transaction)) recs
       = flat_map
           (fun t : Transaction =>
              repeat t (Nat.max 1 (length (List.filter
                                             (references (transaction_id t))
                                             settlements_df))))
           transactions_df.
Proof.
  intros Hok. rewrite (batch_ok_run cfg _ _ Hok). clear Hok.
  do 2 eexists. split; [reflexivity|].
  rewrite map_map.
  cbn [reconcile_row r_row c_row timed t_row discrepancy_row d_row].
  unfold match_settlements_exact, calculate_expected_amounts.
  induction transactions_df as [|t ts IH]; [reflexivity|].
  cbn [map flat_map]. rewrite map_app, IH. f_equal.
  unfold merge_row. cbn [transaction_id e_txn].
  destruct (List.filter (references (transaction_id t)) settlements_df)
    as [|s ss]; [reflexivity|].
  rewrite map_map. cbn [attach m_row e_txn].
  rewrite map_const_repeat. reflexivity.
Qed.

Lemma reconciled_frame_in_transaction_order_witness :
  exists recs ghosts,
    reconcile_transactions Config.defaults [txn_001; txn_002]
      [set_001; set_no_id]
    = Ok (recs, ghosts)
    /\ map (fun r : ReconciledRecord => (r : Transaction)) recs
       = [txn_001; txn_001; txn_002].
Proof.
  destruct (reconciled_frame_in_transaction_order Config.defaults
              [txn_001; txn_002] [set_001; set_no_id] eq_refl)
    as (recs & ghosts & Hrun & Hrows).
  exists recs, ghosts. split; [exact Hrun|exact Hrows].
Defined.

Lemma has_transaction_app (ts1 ts2 : list Transaction) (s : Settlement) :
  has_transaction (ts1 ++ ts2)%list s = has_transaction ts1 s || has_transaction ts2 s.
Proof. apply existsb_app. Qed.

Lemma batch_ok_app (part1 part2 : list Transaction)
    (settlements_df : list Settlement) :
  batch_ok part1 settlements_df = true ->
  batch_ok part2 settlements_df = true ->
  batch_ok (part1 ++ part2)%list settlements_df = true.
Proof.
  rewrite !batch_ok_fits. intros (Hne & Hs1 & Hd1) (_ & Hs2 & Hd2).
  unfold spans_fit, expected_dates_fit in *. rewrite !forallb_app, Hs1, Hs2, Hd1, Hd2.
  repeat split. intros E. apply app_eq_nil in E as [E _]. contradiction.
Qed.

(** X14: when the engine returns on each of two non-empty parts of a
    batch, reconciled against the same settlement frame, it returns on
    the whole batch: the records are those of the first part followed by
    those of the second, and the ghosts are the ghosts of the first part
    that have no identifier or whose identifier the second part does not
    attach. *)
Theorem reconcile_transactions_by_parts (cfg : Config.t)
    (part1 part2 : list Transaction) (settlements_df : list Settlement) :
  batch_ok part1 settlements_df = true ->
  batch_ok part2 settlements_df = true ->
  exists recs1 ghosts1 recs2 ghosts2,
    reconcile_transactions cfg part1 settlements_df = Ok (recs1, ghosts1)
    /\ reconcile_transactions cfg part2 settlements_df = Ok (recs2, ghosts2)
    /\ reconcile_transactions cfg (part1 ++ part2)%list settlements_df
       = Ok ((recs1 ++ recs2)%list,
             List.filter
               (fun g : GhostSettlement =>
                  match s_settlement_id g with
                  | Some sid => bool_decide (sid ∉ attached_settlement_ids recs2)
                  | None => true
                  end)
               ghosts1).
Proof.
  intros H1 H2.
  rewrite (batch_ok_run cfg _ _ H1), (batch_ok_run cfg _ _ H2),
    (batch_ok_run cfg _ _ (batch_ok_app _ _ _ H1 H2)).
  do 4 eexists. split; [reflexivity|]. split; [reflexivity|].
  f_equal. f_equal.
  - unfold calculate_expected_amounts, match_settlements_exact.
    now rewrite map_app, flat_map_app, map_app.
  - rewrite !identify_ghost_settlements_spec.
    rewrite List.filter_map_swap, filter_filter_andb. f_equal.
    apply filter_ext. intros s. cbn [ghost_of g_settlement].
    apply eq_true_iff_eq. rewrite andb_true_iff, !bool_decide_eq_true.
    destruct (s_settlement_id s) as [sid|].
    + rewrite bool_decide_eq_true, attached_settlement_ids_spec.
      rewrite !matched_settlement_ids_spec. split.
      * intros Hnot. split.
        -- intros (s' & Hs' & Ht & Hid). apply Hnot. exists s'.
           rewrite has_transaction_app, Ht. auto.
        -- intros (s' & Hs' & Ht & Hid). apply Hnot. exists s'.
           rewrite has_transaction_app, Ht, orb_true_r. auto.
      * intros [Hn1 Hn2] (s' & Hs' & Ht & Hid).
        rewrite has_transaction_app in Ht.
        apply orb_true_iff in Ht as [Ht | Ht];
          [apply Hn1|apply Hn2]; now exists s'.
    + split; [intros _|intros _; apply missing_id_not_matched].
      split; [apply missing_id_not_matched|reflexivity].
Qed.

Lemma reconcile_transactions_by_parts_witness :
  exists recs ghosts,
    reconcile_transactions Config.defaults ([txn_001] ++ [txn_002])%list
      [set_001; set_no_id; set_five]
    = Ok (recs, ghosts)
    /\ map (fun r : ReconciledRecord => (transaction_id r, settlement_id r)) recs
       = [ ("TXN_001", Some "SET_001"); ("TXN_001", None); ("TXN_002", None) ]
    /\ map (fun g : GhostSettlement => s_settlement_id g) ghosts
       = [None; Some "SET_010"].
Proof.
  destruct (reconcile_transactions_by_parts Config.defaults [txn_001] [txn_002]
              [set_001; set_no_id; set_five] eq_refl eq_refl)
    as (recs1 & ghosts1 & recs2 & ghosts2 & Hrun1 & Hrun2 & Hrun).
  vm_compute in Hrun1, Hrun2. injection Hrun1 as <- <-. injection Hrun2 as <- <-.
  do 2 eexists. split; [exact Hrun|].
  split; vm_compute; reflexivity.
Defined.

(** ** When the engine raises *)

Example empty_batch_raises :
  reconcile_transactions Config.defaults [] [set_001] = Raise KeyError.
Proof. reflexivity. Qed.

Example date_out_of_range_raises :
  reconcile_transactions Config.defaults [txn_late] [set_far]
  = Raise OverflowError.
Proof. vm_compute. reflexivity. Qed.

Example expected_date_out_of_range_raises :
  reconcile_transactions Config.defaults [txn_late] [set_001]
  = Raise OutOfBoundsDatetime.
Proof. vm_compute. reflexivity. Qed.

(** X15: [reconcile_transactions] raises [KeyError] on an empty
    transaction frame, whatever the settlements.  On a transaction frame
    that is not empty it raises [OverflowError] when the settlement date
    of a settlement is out of the 64-bit range of the timestamp of a
    transaction it references; otherwise it raises [OutOfBoundsDatetime]
    when the expected settlement date of a transaction is past the
    largest timestamp; and otherwise it returns.  So it returns exactly
    on the batches that are not empty and whose dates are in range. *)
Theorem reconcile_transactions_outcome (cfg : Config.t)
    (transactions_df : list Transaction) (settlements_df : list Settlement) :
  reconcile_transactions cfg [] settlements_df = Raise KeyError
  /\ (transactions_df <> [] ->
      spans_fit transactions_df settlements_df = false ->
      reconcile_transactions cfg transactions_df settlements_df
      = Raise OverflowError)
  /\ (transactions_df <> [] ->
      spans_fit transactions_df settlements_df = true ->
      expected_dates_fit transactions_df = false ->
      reconcile_transactions cfg transactions_df settlements_df
      = Raise OutOfBoundsDatetime)
  /\ (batch_ok transactions_df settlements_df = true
      <-> exists out,
            reconcile_transactions cfg transactions_df settlements_df = Ok out).
Proof.
  rewrite !reconcile_transactions_run. split; [reflexivity|].
  unfold batch_ok. destruct transactions_df as [|t ts].
  - repeat split; try congruence; try discriminate.
    intros (out & H). discriminate H.
  - set (txs := t :: ts).
    destruct (spans_fit txs settlements_df);
      destruct (expected_dates_fit txs); cbn [andb];
      repeat split; try congruence; try discriminate; eauto;
      intros (out & H); discriminate H.
Qed.
